(** * bitcoind-monitor: a Prometheus exporter for a Bitcoin node

    A shallow embedding of [bitcoind-monitor.py].  The script polls a node
    through [bitcoinrpc], writes what it learns into Prometheus instruments
    and repeats forever.  The instruments are process-wide mutable objects,
    so the embedding threads one [registry] value through every function;
    Python exceptions are the [Raise] results of a state-and-error monad in
    which the state written before the exception survives it. *)

From Stdlib Require Import ZArith QArith List String Ascii Lia.
From stdpp Require Import gmap strings list fin_maps pretty.

Local Open Scope Z_scope.
Local Open Scope string_scope.
Local Open Scope list_scope.

(** ** Exceptions *)

(** An exception instance: the module and the name of its class (what
    [type(e).__module__] and [type(e).__name__] give), the qualified names of
    the proper ancestors of that class below [Exception], and [str(e)].
    Only instances of [Exception] are values of this type; [SystemExit] is a
    separate outcome of the main loop. *)
Record exn := mk_exn {
  exn_module : string;
  exn_name : string;
  exn_bases : list string;
  exn_str : string
}.

Definition qualified (module name : string) : string := module ++ "." ++ name.

Definition class_of (e : exn) : string := qualified (exn_module e) (exn_name e).

(** [isinstance(e, cls)] for a class given by its qualified name. *)
Definition isinstance (e : exn) (cls : string) : bool :=
  bool_decide (cls = class_of e) || bool_decide (cls ∈ exn_bases e).

Definition InWarmupError : string := "bitcoin.rpc.InWarmupError".
Definition ConnectionRefusedError : string := "builtins.ConnectionRefusedError".
Definition RetryError : string := "riprova.exceptions.RetryError".
Definition JSONDecodeError : string := "json.decoder.JSONDecodeError".

Definition RETRY_EXCEPTIONS : list string :=
  [InWarmupError; ConnectionRefusedError].

(** [isinstance] against a tuple of classes. *)
Definition isinstance_any (e : exn) (classes : list string) : bool :=
  existsb (isinstance e) classes.

Definition error_evaluator (e : exn) : bool :=
  isinstance_any e RETRY_EXCEPTIONS.

(** What a subscript raises on a dictionary without the key. *)
Definition KeyError (key : string) : exn :=
  mk_exn "builtins" "KeyError" ["builtins.LookupError"] ("'" ++ key ++ "'").

(** ** Results and the registry *)

Inductive result (A : Type) : Type :=
| Ok (a : A)
| Raise (e : exn).
Arguments Ok {A} a.
Arguments Raise {A} e.

(** The instruments of the process.  An unlabelled gauge is identified by its
    metric name; [gauge_values] holds the value last given to [set], and a
    name without an entry is a gauge that was never set.  A child of a
    labelled gauge family is identified by the family name and its two label
    values.  Counters hold their running total, zero when there is no entry.
    [collectors] logs every [Gauge(...)] construction made after start-up,
    oldest first.  [stdout] is what [print] wrote, oldest first. *)
Record registry := mk_registry {
  gauge_values : gmap string Q;
  family_values : gmap (string * (string * string)) Q;
  counter_values : gmap string Q;
  error_values : gmap string Q;
  collectors : list string;
  BITCOIN_ESTIMATED_SMART_FEE_GAUGES : gmap Z string;
  stdout : list string
}.

Definition set_gauge_values (f : gmap string Q -> gmap string Q) (r : registry) : registry :=
  mk_registry (f (gauge_values r)) (family_values r) (counter_values r)
    (error_values r) (collectors r) (BITCOIN_ESTIMATED_SMART_FEE_GAUGES r) (stdout r).

Definition set_family_values
    (f : gmap (string * (string * string)) Q -> gmap (string * (string * string)) Q)
    (r : registry) : registry :=
  mk_registry (gauge_values r) (f (family_values r)) (counter_values r)
    (error_values r) (collectors r) (BITCOIN_ESTIMATED_SMART_FEE_GAUGES r) (stdout r).

Definition set_counter_values (f : gmap string Q -> gmap string Q) (r : registry) : registry :=
  mk_registry (gauge_values r) (family_values r) (f (counter_values r))
    (error_values r) (collectors r) (BITCOIN_ESTIMATED_SMART_FEE_GAUGES r) (stdout r).

Definition set_error_values (f : gmap string Q -> gmap string Q) (r : registry) : registry :=
  mk_registry (gauge_values r) (family_values r) (counter_values r)
    (f (error_values r)) (collectors r) (BITCOIN_ESTIMATED_SMART_FEE_GAUGES r) (stdout r).

Definition set_collectors (f : list string -> list string) (r : registry) : registry :=
  mk_registry (gauge_values r) (family_values r) (counter_values r)
    (error_values r) (f (collectors r)) (BITCOIN_ESTIMATED_SMART_FEE_GAUGES r) (stdout r).

Definition set_fee_gauges (f : gmap Z string -> gmap Z string) (r : registry) : registry :=
  mk_registry (gauge_values r) (family_values r) (counter_values r)
    (error_values r) (collectors r) (f (BITCOIN_ESTIMATED_SMART_FEE_GAUGES r)) (stdout r).

Definition set_stdout (f : list string -> list string) (r : registry) : registry :=
  mk_registry (gauge_values r) (family_values r) (counter_values r)
    (error_values r) (collectors r) (BITCOIN_ESTIMATED_SMART_FEE_GAUGES r) (f (stdout r)).

(** The registry when [main] starts: nothing set, nothing counted, the
    dictionary of fee gauges empty. *)
Definition initial_registry : registry :=
  mk_registry ∅ ∅ ∅ ∅ [] ∅ [].

(** ** The monad of the script *)

Definition M (A : Type) : Type := registry -> result A * registry.

Definition ret {A} (a : A) : M A := fun st => (Ok a, st).

Definition raise {A} (e : exn) : M A := fun st => (Raise e, st).

Definition bind {A B} (m : M A) (k : A -> M B) : M B :=
  fun st =>
    match m st with
    | (Ok a, st1) => k a st1
    | (Raise e, st1) => (Raise e, st1)
    end.

Notation "'let*' x ':=' m 'in' k" := (bind m (fun x => k))
  (at level 10, x name, m at level 100, k at level 200).
Notation "m '>>' k" := (bind m (fun _ => k))
  (at level 90, right associativity).

(** [for x in xs: body(x)] *)
Fixpoint for_each {A} (xs : list A) (body : A -> M unit) : M unit :=
  match xs with
  | [] => ret tt
  | x :: rest => body x >> for_each rest body
  end.

(** ** Instruments *)

(** [gauge.set(value)] *)
Definition Gauge_set (name : string) (value : Q) : M unit :=
  fun st => (Ok tt, set_gauge_values (insert name value) st).

(** [family.labels(address=..., reason=...).set(value)] *)
Definition labels_set (family address reason : string) (value : Q) : M unit :=
  fun st => (Ok tt, set_family_values (insert (family, (address, reason)) value) st).

Definition counter_value (st : registry) (name : string) : Q :=
  default 0%Q (counter_values st !! name).

(** [counter.inc(amount)] *)
Definition Counter_inc (name : string) (amount : Q) : M unit :=
  fun st =>
    (Ok tt, set_counter_values (insert name (counter_value st name + amount)%Q) st).

Definition error_count (st : registry) (type : string) : Q :=
  default 0%Q (error_values st !! type).

(** [EXPORTER_ERRORS.labels(type=...).inc()] *)
Definition EXPORTER_ERRORS_inc (type : string) : M unit :=
  fun st =>
    (Ok tt, set_error_values (insert type (error_count st type + 1)%Q) st).

(** [Gauge(name, documentation)]: a new gauge, logged in [collectors].  The
    gauge is known by its name from then on. *)
Definition Gauge (name : string) : M string :=
  fun st => (Ok name, set_collectors (fun l => l ++ [name]) st).

Definition print (line : string) : M unit :=
  fun st => (Ok tt, set_stdout (fun l => l ++ [line]) st).

(** ** Metric names

    Each constant stands for the instrument the script creates under that
    Python name at import time. *)

Definition BITCOIN_BLOCKS : string := "bitcoin_blocks".
Definition BITCOIN_DIFFICULTY : string := "bitcoin_difficulty".
Definition BITCOIN_PEERS : string := "bitcoin_peers".
Definition BITCOIN_HASHPS_NEG1 : string := "bitcoin_hashps_neg1".
Definition BITCOIN_HASHPS_1 : string := "bitcoin_hashps_1".
Definition BITCOIN_HASHPS : string := "bitcoin_hashps".
Definition BITCOIN_WARNINGS : string := "bitcoin_warnings".
Definition BITCOIN_UPTIME : string := "bitcoin_uptime".
Definition BITCOIN_MEMINFO_USED : string := "bitcoin_meminfo_used".
Definition BITCOIN_MEMINFO_FREE : string := "bitcoin_meminfo_free".
Definition BITCOIN_MEMINFO_TOTAL : string := "bitcoin_meminfo_total".
Definition BITCOIN_MEMINFO_LOCKED : string := "bitcoin_meminfo_locked".
Definition BITCOIN_MEMINFO_CHUNKS_USED : string := "bitcoin_meminfo_chunks_used".
Definition BITCOIN_MEMINFO_CHUNKS_FREE : string := "bitcoin_meminfo_chunks_free".
Definition BITCOIN_MEMPOOL_BYTES : string := "bitcoin_mempool_bytes".
Definition BITCOIN_MEMPOOL_SIZE : string := "bitcoin_mempool_size".
Definition BITCOIN_MEMPOOL_USAGE : string := "bitcoin_mempool_usage".
Definition BITCOIN_LATEST_BLOCK_HEIGHT : string := "bitcoin_latest_block_height".
Definition BITCOIN_LATEST_BLOCK_WEIGHT : string := "bitcoin_latest_block_weight".
Definition BITCOIN_LATEST_BLOCK_SIZE : string := "bitcoin_latest_block_size".
Definition BITCOIN_LATEST_BLOCK_TXS : string := "bitcoin_latest_block_txs".
Definition BITCOIN_NUM_CHAINTIPS : string := "bitcoin_num_chaintips".
Definition BITCOIN_TOTAL_BYTES_RECV : string := "bitcoin_total_bytes_recv".
Definition BITCOIN_TOTAL_BYTES_SENT : string := "bitcoin_total_bytes_sent".
Definition BITCOIN_LATEST_BLOCK_INPUTS : string := "bitcoin_latest_block_inputs".
Definition BITCOIN_LATEST_BLOCK_OUTPUTS : string := "bitcoin_latest_block_outputs".
Definition BITCOIN_LATEST_BLOCK_VALUE : string := "bitcoin_latest_block_value".
Definition BITCOIN_BAN_CREATED : string := "bitcoin_ban_created".
Definition BITCOIN_BANNED_UNTIL : string := "bitcoin_banned_until".
Definition BITCOIN_SERVER_VERSION : string := "bitcoin_server_version".
Definition BITCOIN_PROTOCOL_VERSION : string := "bitcoin_protocol_version".
Definition BITCOIN_SIZE_ON_DISK : string := "bitcoin_size_on_disk".
Definition PROCESS_TIME : string := "bitcoin_exporter_process_time".

(** ** Responses of the node

    Each response is the decoded JSON document of one RPC, typed by the
    fields the script reads.  JSON numbers are exact rationals.  A field is
    an [option] where the script asks whether it is there ([feerate], read
    with [.get]) or where its absence matters to what is verified
    ([warnings], read with a subscript, which raises [KeyError]). *)

Record memory_stats := {
  mem_used : Q; mem_free : Q; mem_total : Q; mem_locked : Q;
  mem_chunks_used : Q; mem_chunks_free : Q
}.

Record MemoryInfo := { locked : memory_stats }.

Record BlockchainInfo := {
  blocks : Q; difficulty : Q; size_on_disk : Q; bestblockhash : string
}.

(** The [warnings] field of [getnetworkinfo]: one string, or a list of
    strings on newer nodes. *)
Inductive warnings_value :=
| warnings_text (s : string)
| warnings_array (l : list string).

Record NetworkInfo := {
  connections : Q; version : Q; protocolversion : Q;
  warnings : option warnings_value
}.

Record ChainTip := { tip_height : Z; tip_hash : string; branchlen : Z; tip_status : string }.

Record MempoolInfo := { mempool_bytes : Q; mempool_size : Q; mempool_usage : Q }.

Record NetTotals := { totalbytesrecv : Q; totalbytessent : Q }.

Record TxIn := { prev_txid : string; prev_vout : Z }.

Record TxOut := { value : Q; n : Z }.

Record Transaction := { txid : string; vin : list TxIn; vout : list TxOut }.

Record Block := {
  block_size : Q; nTx : Q; height : Q; weight : Q; tx : list Transaction
}.

Record Ban := {
  address : string; ban_reason : string; ban_created : Q; banned_until : Q
}.

Record SmartFeeEstimate := { feerate : option Q; estimate_blocks : Z }.

(** ** The node as the script sees it

    One call of [bitcoinrpc] runs under the [riprova.retry] decorator.  What
    the script observes of it is the list of failures for which the
    decorator called [on_retry], in order, and then the value returned or the
    exception raised.  A node gives such an outcome for every call of a
    cycle. *)
Record rpc_outcome (A : Type) := mk_outcome {
  retried : list exn;
  answer : result A
}.
Arguments mk_outcome {A} retried answer.
Arguments retried {A} r.
Arguments answer {A} r.

Record bitcoind := mk_bitcoind {
  uptime : rpc_outcome Z;
  getmemoryinfo : string -> rpc_outcome MemoryInfo;
  getblockchaininfo : rpc_outcome BlockchainInfo;
  getnetworkinfo : rpc_outcome NetworkInfo;
  getchaintips : rpc_outcome (list ChainTip);
  getmempoolinfo : rpc_outcome MempoolInfo;
  getnettotals : rpc_outcome NetTotals;
  getblock : string -> Z -> rpc_outcome Block;
  getnetworkhashps : Z -> rpc_outcome Q;
  listbanned : rpc_outcome (list Ban);
  estimatesmartfee : Z -> rpc_outcome SmartFeeEstimate
}.

(** ** The script *)

(** [on_retry(err, next_try)]; the script does not read [next_try]. *)
Definition on_retry (err : exn) : M unit :=
  let exception_name := qualified (exn_module err) (exn_name err) in
  EXPORTER_ERRORS_inc exception_name.

(** [bitcoinrpc] under its decorator: the retries are reported to
    [on_retry], then the call returns or raises.  How the proxy is built,
    from [bitcoin.conf] or from the environment, is part of what the node
    answers. *)
Definition bitcoinrpc {A} (call : rpc_outcome A) : M A :=
  for_each (retried call) on_retry >> fun st => (answer call, st).

Definition get_block (node : bitcoind) (block_hash : string) : M (option Block) :=
  fun st =>
    match bitcoinrpc (getblock node block_hash 2) st with
    | (Ok block, st1) => (Ok (Some block), st1)
    | (Raise e, st1) =>
        (print (exn_str e) >>
         print ("Error: Can't retrieve block " ++ block_hash ++ " from bitcoind.") >>
         ret None) st1
    end.

Definition smartfee_gauge (num_blocks : Z) : M string :=
  fun st =>
    match BITCOIN_ESTIMATED_SMART_FEE_GAUGES st !! num_blocks with
    | Some gauge => (Ok gauge, st)
    | None =>
        (let* gauge := Gauge ("bitcoin_est_smart_fee_" ++ pretty num_blocks) in
         (fun st1 => (Ok tt, set_fee_gauges (insert num_blocks gauge) st1)) >>
         ret gauge) st
    end.

Definition do_smartfee (node : bitcoind) (num_blocks : Z) : M unit :=
  let* estimate := bitcoinrpc (estimatesmartfee node num_blocks) in
  match feerate estimate with
  | Some smartfee =>
      let* gauge := smartfee_gauge num_blocks in
      Gauge_set gauge smartfee
  | None => ret tt
  end.

(** Truth value of the [warnings] field: a string or a list is true when it
    is not empty. *)
Definition truthy (w : warnings_value) : bool :=
  match w with
  | warnings_text s => negb (bool_decide (s = EmptyString))
  | warnings_array l => negb (bool_decide (l = []))
  end.

(** [d[key]] on a field that may be missing. *)
Definition subscript {A} (key : string) (field : option A) : M A :=
  match field with
  | Some a => ret a
  | None => raise (KeyError key)
  end.

(** [sum(values)]: Python adds from zero, left to right. *)
Definition sum (values : list Q) : Q := fold_left Qplus values 0%Q.

Definition of_nat (k : nat) : Q := inject_Z (Z.of_nat k).

(** The loop over [latest_block['tx']], with its three accumulators. *)
Definition block_totals (txs : list Transaction) : nat * nat * Q :=
  fold_left
    (fun '(inputs, outputs, value_acc) t =>
       let i := length (vin t) in
       let o := length (vout t) in
       ((inputs + i)%nat, (outputs + o)%nat,
        (value_acc + sum (map value (vout t)))%Q))
    txs (0%nat, 0%nat, 0%Q).

Definition publish_latest_block (latest_block : option Block) : M unit :=
  match latest_block with
  | Some latest_block =>
      Gauge_set BITCOIN_LATEST_BLOCK_SIZE (block_size latest_block) >>
      Gauge_set BITCOIN_LATEST_BLOCK_TXS (nTx latest_block) >>
      Gauge_set BITCOIN_LATEST_BLOCK_HEIGHT (height latest_block) >>
      Gauge_set BITCOIN_LATEST_BLOCK_WEIGHT (weight latest_block) >>
      let '(inputs, outputs, value_total) := block_totals (tx latest_block) in
      Gauge_set BITCOIN_LATEST_BLOCK_INPUTS (of_nat inputs) >>
      Gauge_set BITCOIN_LATEST_BLOCK_OUTPUTS (of_nat outputs) >>
      Gauge_set BITCOIN_LATEST_BLOCK_VALUE value_total
  | None => ret tt
  end.

Definition refresh_metrics (SMART_FEES : list Z) (node : bitcoind) : M unit :=
  let* uptime := bitcoinrpc (uptime node) in
  let* meminfo := bitcoinrpc (getmemoryinfo node "stats") in
  let meminfo := locked meminfo in
  let* blockchaininfo := bitcoinrpc (getblockchaininfo node) in
  let* networkinfo := bitcoinrpc (getnetworkinfo node) in
  let* chaintips := bitcoinrpc (getchaintips node) in
  let chaintips := length chaintips in
  let* mempool := bitcoinrpc (getmempoolinfo node) in
  let* nettotals := bitcoinrpc (getnettotals node) in
  let* latest_block := get_block node (bestblockhash blockchaininfo) in
  let* hashps_120 := bitcoinrpc (getnetworkhashps node 120) in
  let* hashps_neg1 := bitcoinrpc (getnetworkhashps node (-1)) in
  let* hashps_1 := bitcoinrpc (getnetworkhashps node 1) in
  let* banned := bitcoinrpc (listbanned node) in
  Gauge_set BITCOIN_UPTIME (inject_Z uptime) >>
  Gauge_set BITCOIN_BLOCKS (blocks blockchaininfo) >>
  Gauge_set BITCOIN_PEERS (connections networkinfo) >>
  Gauge_set BITCOIN_DIFFICULTY (difficulty blockchaininfo) >>
  Gauge_set BITCOIN_HASHPS hashps_120 >>
  Gauge_set BITCOIN_HASHPS_NEG1 hashps_neg1 >>
  Gauge_set BITCOIN_HASHPS_1 hashps_1 >>
  Gauge_set BITCOIN_SERVER_VERSION (version networkinfo) >>
  Gauge_set BITCOIN_PROTOCOL_VERSION (protocolversion networkinfo) >>
  Gauge_set BITCOIN_SIZE_ON_DISK (size_on_disk blockchaininfo) >>
  for_each SMART_FEES (fun smartfee => do_smartfee node smartfee) >>
  for_each banned (fun ban =>
    labels_set BITCOIN_BAN_CREATED (address ban) (ban_reason ban) (ban_created ban) >>
    labels_set BITCOIN_BANNED_UNTIL (address ban) (ban_reason ban) (banned_until ban)) >>
  (let* w := subscript "warnings" (warnings networkinfo) in
   if truthy w then Counter_inc BITCOIN_WARNINGS 1%Q else ret tt) >>
  Gauge_set BITCOIN_NUM_CHAINTIPS (of_nat chaintips) >>
  Gauge_set BITCOIN_MEMINFO_USED (mem_used meminfo) >>
  Gauge_set BITCOIN_MEMINFO_FREE (mem_free meminfo) >>
  Gauge_set BITCOIN_MEMINFO_TOTAL (mem_total meminfo) >>
  Gauge_set BITCOIN_MEMINFO_LOCKED (mem_locked meminfo) >>
  Gauge_set BITCOIN_MEMINFO_CHUNKS_USED (mem_chunks_used meminfo) >>
  Gauge_set BITCOIN_MEMINFO_CHUNKS_FREE (mem_chunks_free meminfo) >>
  Gauge_set BITCOIN_MEMPOOL_BYTES (mempool_bytes mempool) >>
  Gauge_set BITCOIN_MEMPOOL_SIZE (mempool_size mempool) >>
  Gauge_set BITCOIN_MEMPOOL_USAGE (mempool_usage mempool) >>
  Gauge_set BITCOIN_TOTAL_BYTES_RECV (totalbytesrecv nettotals) >>
  Gauge_set BITCOIN_TOTAL_BYTES_SENT (totalbytessent nettotals) >>
  publish_latest_block latest_block.

Definition exception_count (e : exn) : M unit :=
  let exception_name := qualified (exn_module e) (exn_name e) in
  EXPORTER_ERRORS_inc exception_name.

(** How the process ends, when it does: [sys.exit(code)], or an exception
    that no handler caught. *)
Inductive termination :=
| SystemExit (code : Z)
| Uncaught (e : exn).

(** [duration.total_seconds()] of a duration of so many microseconds. *)
Definition total_seconds (microseconds : N) : Q := Z.of_N microseconds # 1000000.

(** One turn of the [while True] loop of [main].  [duration] is what
    [datetime.now() - process_start] measures, in microseconds; the clock
    is taken not to step backwards during a cycle.  The result is [None]
    when the loop goes on to its next turn, after [time.sleep], which
    changes nothing of the registry. *)
Definition main_cycle (SMART_FEES : list Z) (node : bitcoind) (duration : N)
    : registry -> option termination * registry :=
  fun st =>
    let rest st1 :=
      (None, snd (Counter_inc PROCESS_TIME (total_seconds duration) st1)) in
    match refresh_metrics SMART_FEES node st with
    | (Ok _, st1) => rest st1
    | (Raise e, st1) =>
        if isinstance e RetryError then
          rest (snd ((print ("Refresh failed during retry. Cause: " ++ exn_str e) >>
                      exception_count e) st1))
        else if isinstance e JSONDecodeError then
          (Some (SystemExit 1),
           snd (print ("RPC call did not return JSON. Bad credentials? " ++ exn_str e) st1))
        else (Some (Uncaught e), st1)
    end.

(** The loop of [main] over the cycles the process lives through: for each,
    the node as it answers during that cycle and the measured duration.
    [None] means the loop is still running after them. *)
Fixpoint main (SMART_FEES : list Z) (cycles : list (bitcoind * N)) (st : registry)
    : option termination * registry :=
  match cycles with
  | [] => (None, st)
  | (node, duration) :: later =>
      match main_cycle SMART_FEES node duration st with
      | (None, st1) => main SMART_FEES later st1
      | (Some stop, st1) => (Some stop, st1)
      end
  end.

(** * Terms of the specification

    Example nodes, and the notions in which the properties of the script
    are stated and proved. *)

(** ** Example nodes *)

Definition returns {A} (a : A) : rpc_outcome A := mk_outcome [] (Ok a).

Definition raises {A} (e : exn) : rpc_outcome A := mk_outcome [] (Raise e).

Definition example_txin : TxIn := {| prev_txid := "00"; prev_vout := 0 |}.

(** Three transactions with (inputs, outputs, output values)
    (2, 1, 5.0), (1, 2, 3.0 + 1.0) and (3, 1, 10.0). *)
Definition example_block : Block := {|
  block_size := 1000%Q; nTx := 3%Q; height := 700000%Q; weight := 3000%Q;
  tx := [
    {| txid := "a"; vin := [example_txin; example_txin];
       vout := [{| value := 5%Q; n := 0 |}] |};
    {| txid := "b"; vin := [example_txin];
       vout := [{| value := 3%Q; n := 0 |}; {| value := 1%Q; n := 1 |}] |};
    {| txid := "c"; vin := [example_txin; example_txin; example_txin];
       vout := [{| value := 10%Q; n := 0 |}] |} ]
|}.

(** Two bans of one address, for different reasons. *)
Definition example_banned : list Ban := [
  {| address := "203.0.113.7/32"; ban_reason := "manually added";
     ban_created := 1600000000%Q; banned_until := 1600086400%Q |};
  {| address := "203.0.113.7/32"; ban_reason := "node misbehaving";
     ban_created := 1600000500%Q; banned_until := 1600086900%Q |} ].

(** A node that answers every call, and reports two warnings. *)
Definition example_node : bitcoind := {|
  uptime := returns 3600;
  getmemoryinfo := fun _ => returns {| locked := {|
    mem_used := 100%Q; mem_free := 200%Q; mem_total := 300%Q; mem_locked := 300%Q;
    mem_chunks_used := 4%Q; mem_chunks_free := 2%Q |} |};
  getblockchaininfo := returns {|
    blocks := 700000%Q; difficulty := 1%Q; size_on_disk := 5000%Q;
    bestblockhash := "000000000019d6" |};
  getnetworkinfo := returns {|
    connections := 8%Q; version := 210000%Q; protocolversion := 70016%Q;
    warnings := Some (warnings_array ["pre-release build"; "unknown rules activated"]) |};
  getchaintips := returns
    [{| tip_height := 700000; tip_hash := "000000000019d6"; branchlen := 0;
        tip_status := "active" |}];
  getmempoolinfo := returns
    {| mempool_bytes := 2000%Q; mempool_size := 10%Q; mempool_usage := 9000%Q |};
  getnettotals := returns {| totalbytesrecv := 123%Q; totalbytessent := 456%Q |};
  getblock := fun _ _ => returns example_block;
  getnetworkhashps := fun _ => returns 1000000%Q;
  listbanned := returns example_banned;
  estimatesmartfee := fun conf_target =>
    returns {| feerate := Some (1 # 10000)%Q; estimate_blocks := conf_target |}
|}.

Definition with_getblock (node : bitcoind) (g : string -> Z -> rpc_outcome Block)
    : bitcoind :=
  mk_bitcoind (uptime node) (getmemoryinfo node) (getblockchaininfo node)
    (getnetworkinfo node) (getchaintips node) (getmempoolinfo node)
    (getnettotals node) g (getnetworkhashps node) (listbanned node)
    (estimatesmartfee node).

Definition with_uptime (node : bitcoind) (u : rpc_outcome Z) : bitcoind :=
  mk_bitcoind u (getmemoryinfo node) (getblockchaininfo node)
    (getnetworkinfo node) (getchaintips node) (getmempoolinfo node)
    (getnettotals node) (getblock node) (getnetworkhashps node) (listbanned node)
    (estimatesmartfee node).



Definition with_listbanned (node : bitcoind) (l : rpc_outcome (list Ban)) : bitcoind :=
  mk_bitcoind (uptime node) (getmemoryinfo node) (getblockchaininfo node)
    (getnetworkinfo node) (getchaintips node) (getmempoolinfo node)
    (getnettotals node) (getblock node) (getnetworkhashps node) l
    (estimatesmartfee node).

Definition with_estimatesmartfee (node : bitcoind)
    (f : Z -> rpc_outcome SmartFeeEstimate) : bitcoind :=
  mk_bitcoind (uptime node) (getmemoryinfo node) (getblockchaininfo node)
    (getnetworkinfo node) (getchaintips node) (getmempoolinfo node)
    (getnettotals node) (getblock node) (getnetworkhashps node) (listbanned node)
    f.

(** Exceptions as the libraries raise them. *)
Definition retry_timeout : exn :=
  mk_exn "riprova.exceptions" "RetryTimeoutError" ["riprova.exceptions.RetryError"]
    "Timeout exceeded".

Definition json_error : exn :=
  mk_exn "json.decoder" "JSONDecodeError" ["builtins.ValueError"]
    "Expecting value: line 1 column 1 (char 0)".

Definition default_fees : list Z := [2; 3; 5; 20].

(** ** How a cycle ends

    The remote calls of one cycle in the order the script makes them, the
    lookup of the latest block left out: [first_failure] is the exception of
    the first of them that the node fails. *)

(** The exception a call ends with, if it does. *)
Definition failure {A} (call : rpc_outcome A) : option exn :=
  match answer call with
  | Ok _ => None
  | Raise e => Some e
  end.

Definition or_else (first : option exn) (later : option exn) : option exn :=
  match first with
  | Some e => Some e
  | None => later
  end.

Definition first_failure (SMART_FEES : list Z) (node : bitcoind) : option exn :=
  or_else (failure (uptime node))
  (or_else (failure (getmemoryinfo node "stats"))
  (or_else (failure (getblockchaininfo node))
  (or_else (failure (getnetworkinfo node))
  (or_else (failure (getchaintips node))
  (or_else (failure (getmempoolinfo node))
  (or_else (failure (getnettotals node))
  (or_else (failure (getnetworkhashps node 120))
  (or_else (failure (getnetworkhashps node (-1)))
  (or_else (failure (getnetworkhashps node 1))
  (or_else (failure (listbanned node))
  (foldr (fun smartfee later => or_else (failure (estimatesmartfee node smartfee)) later)
     None SMART_FEES))))))))))).

(** How [refresh_metrics] ends, read off the answers of the node. *)
Definition refresh_result (SMART_FEES : list Z) (node : bitcoind) : result unit :=
  match first_failure SMART_FEES node with
  | Some e => Raise e
  | None =>
      match answer (getnetworkinfo node) with
      | Ok networkinfo =>
          match warnings networkinfo with
          | Some _ => Ok tt
          | None => Raise (KeyError "warnings")
          end
      | Raise e => Raise e
      end
  end.

(** How a turn of the loop ends, read off how the cycle ended. *)
Definition cycle_outcome (r : result unit) : option termination :=
  match r with
  | Ok _ => None
  | Raise e =>
      if isinstance e RetryError then None
      else if isinstance e JSONDecodeError then Some (SystemExit 1)
      else Some (Uncaught e)
  end.

(** ** What a cycle leaves in the registry *)

(** The retries of a call only count errors; the call then answers. *)
Definition note_retries (errs : list exn) (st : registry) : registry :=
  (for_each errs on_retry st).2.

Definition fee_loop (node : bitcoind) (fees : list Z) : M unit :=
  for_each fees (fun smartfee => do_smartfee node smartfee).

Definition ban_loop (banned : list Ban) : M unit :=
  for_each banned (fun ban =>
    labels_set BITCOIN_BAN_CREATED (address ban) (ban_reason ban) (ban_created ban) >>
    labels_set BITCOIN_BANNED_UNTIL (address ban) (ban_reason ban) (banned_until ban)).


Definition ban_labels (ban : Ban) : string * string := (address ban, ban_reason ban).

(** The two writes the loop makes for one ban. *)
Definition write_ban (families : gmap (string * (string * string)) Q) (ban : Ban)
    : gmap (string * (string * string)) Q :=
  <[(BITCOIN_BANNED_UNTIL, ban_labels ban) := banned_until ban]>
    (<[(BITCOIN_BAN_CREATED, ban_labels ban) := ban_created ban]> families).

(** The labelled gauges after one cycle, whatever its end: two writes for
    every ban of the list when every call and every fee estimate answered,
    nothing otherwise. *)
Definition families_after (fees : list Z) (node : bitcoind) (st : registry)
    : gmap (string * (string * string)) Q :=
  match first_failure fees node with
  | Some _ => family_values st
  | None =>
      match answer (listbanned node) with
      | Ok banned => foldl write_ban (family_values st) banned
      | Raise _ => family_values st
      end
  end.





(** ** The fee gauges and the block gauges *)

Definition fee_gauge_name (num_blocks : Z) : string :=
  "bitcoin_est_smart_fee_" ++ pretty num_blocks.

(** The dictionary and the log of constructions fit together: every gauge in
    the dictionary is the one named after its key and was constructed, and
    every gauge constructed is in the dictionary; none was constructed
    twice. *)
Definition fee_gauges_wf_on (log : list string) (gauges : gmap Z string) : Prop :=
  NoDup log /\
  (forall n g, gauges !! n = Some g -> g = fee_gauge_name n /\ g ∈ log) /\
  (forall name, name ∈ log -> exists n, name = fee_gauge_name n /\ gauges !! n = Some name).

Definition fee_gauges_wf (st : registry) : Prop :=
  fee_gauges_wf_on (collectors st) (BITCOIN_ESTIMATED_SMART_FEE_GAUGES st).

Definition fee_state (st : registry) : list string * gmap Z string :=
  (collectors st, BITCOIN_ESTIMATED_SMART_FEE_GAUGES st).

(** A run of lookups [smartfee_gauge(k)], one after the other. *)
Definition lookup_gauges (targets : list Z) : M unit :=
  for_each targets (fun k => smartfee_gauge k >> ret tt).

Definition block_gauges : list string :=
  [ BITCOIN_LATEST_BLOCK_SIZE; BITCOIN_LATEST_BLOCK_TXS;
    BITCOIN_LATEST_BLOCK_HEIGHT; BITCOIN_LATEST_BLOCK_WEIGHT;
    BITCOIN_LATEST_BLOCK_INPUTS; BITCOIN_LATEST_BLOCK_OUTPUTS;
    BITCOIN_LATEST_BLOCK_VALUE ].

(** Everything a cycle publishes but the log and the error counts. *)
Definition published (st : registry) :=
  (gauge_values st, family_values st, counter_values st, fee_state st).

(** Two registries that agree on every instrument but the block gauges. *)
Definition agree_off_block (st1 st2 : registry) : Prop :=
  (forall n, n ∉ block_gauges -> gauge_values st1 !! n = gauge_values st2 !! n) /\
  family_values st1 = family_values st2 /\
  counter_values st1 = counter_values st2 /\
  fee_state st1 = fee_state st2.

(** ** Relations between registries, and what a computation does to them *)

(** [keeps R m]: whatever [m] does, and whether it returns or raises, the
    registry it leaves is [R]-related to the one it started from. *)
Definition keeps {A} (R : relation registry) (m : M A) : Prop :=
  forall st, R st (m st).2.

(** [same f]: the part [f] of the registry is what it was. *)
Definition same {X} (f : registry -> X) : relation registry :=
  fun st st' => f st' = f st.

(** A part [f] of the registry [ignores] an update when the update never
    changes it. *)
Definition ignores {X Y} (f : registry -> X)
    (update : (Y -> Y) -> registry -> registry) : Prop :=
  forall g st, f (update g st) = f st.

(** Well-formedness carried along: a preorder on registries. *)
Definition wf_step : relation registry :=
  fun st st' => fee_gauges_wf st -> fee_gauges_wf st'.

Definition gauges_and_fees (st : registry)
    : gmap string Q * (list string * gmap Z string) :=
  (gauge_values st, fee_state st).

(** The gauge [n] keeps its value, in a registry that stays well formed. *)
Definition block_step (n : string) : relation registry :=
  fun st st' =>
    fee_gauges_wf st ->
    fee_gauges_wf st' /\ gauge_values st' !! n = gauge_values st !! n.

Definition same_end {A} (RA : A -> A -> Prop) (r1 r2 : result A) : Prop :=
  match r1, r2 with
  | Ok a1, Ok a2 => RA a1 a2
  | Raise e1, Raise e2 => e1 = e2
  | _, _ => False
  end.

(** [simulates RA m1 m2]: run from registries that agree off the block
    gauges, [m1] and [m2] end the same way and leave registries that agree
    off the block gauges. *)
Definition simulates {A} (RA : A -> A -> Prop) (m1 m2 : M A) : Prop :=
  forall st1 st2, agree_off_block st1 st2 ->
    same_end RA (m1 st1).1 (m2 st2).1 /\ agree_off_block (m1 st1).2 (m2 st2).2.

(** ** The gauges a cycle writes

    The unlabelled gauges a cycle sets, as a list of writes in the order the
    script makes them; a cycle that fails makes the writes before the
    failure only. *)

Definition write (gauges : gmap string Q) (w : string * Q) : gmap string Q :=
  <[w.1 := w.2]> gauges.

Definition apply_writes (ws : list (string * Q)) (gauges : gmap string Q)
    : gmap string Q :=
  foldl write gauges ws.

(** The ten gauges set right after the remote calls. *)
Definition fetched_writes (uptime : Z) (blockchaininfo : BlockchainInfo)
    (networkinfo : NetworkInfo) (hashps_120 hashps_neg1 hashps_1 : Q)
    : list (string * Q) :=
  [ (BITCOIN_UPTIME, inject_Z uptime);
    (BITCOIN_BLOCKS, blocks blockchaininfo);
    (BITCOIN_PEERS, connections networkinfo);
    (BITCOIN_DIFFICULTY, difficulty blockchaininfo);
    (BITCOIN_HASHPS, hashps_120);
    (BITCOIN_HASHPS_NEG1, hashps_neg1);
    (BITCOIN_HASHPS_1, hashps_1);
    (BITCOIN_SERVER_VERSION, version networkinfo);
    (BITCOIN_PROTOCOL_VERSION, protocolversion networkinfo);
    (BITCOIN_SIZE_ON_DISK, size_on_disk blockchaininfo) ].

(** The twelve gauges set after the warnings check. *)
Definition later_writes (chaintips : list ChainTip) (meminfo : memory_stats)
    (mempool : MempoolInfo) (nettotals : NetTotals) : list (string * Q) :=
  [ (BITCOIN_NUM_CHAINTIPS, of_nat (length chaintips));
    (BITCOIN_MEMINFO_USED, mem_used meminfo);
    (BITCOIN_MEMINFO_FREE, mem_free meminfo);
    (BITCOIN_MEMINFO_TOTAL, mem_total meminfo);
    (BITCOIN_MEMINFO_LOCKED, mem_locked meminfo);
    (BITCOIN_MEMINFO_CHUNKS_USED, mem_chunks_used meminfo);
    (BITCOIN_MEMINFO_CHUNKS_FREE, mem_chunks_free meminfo);
    (BITCOIN_MEMPOOL_BYTES, mempool_bytes mempool);
    (BITCOIN_MEMPOOL_SIZE, mempool_size mempool);
    (BITCOIN_MEMPOOL_USAGE, mempool_usage mempool);
    (BITCOIN_TOTAL_BYTES_RECV, totalbytesrecv nettotals);
    (BITCOIN_TOTAL_BYTES_SENT, totalbytessent nettotals) ].

(** The seven gauges of the latest block, when there is one. *)
Definition block_writes (latest_block : option Block) : list (string * Q) :=
  match latest_block with
  | None => []
  | Some b =>
      [ (BITCOIN_LATEST_BLOCK_SIZE, block_size b);
        (BITCOIN_LATEST_BLOCK_TXS, nTx b);
        (BITCOIN_LATEST_BLOCK_HEIGHT, height b);
        (BITCOIN_LATEST_BLOCK_WEIGHT, weight b);
        (BITCOIN_LATEST_BLOCK_INPUTS, of_nat (block_totals (tx b)).1.1);
        (BITCOIN_LATEST_BLOCK_OUTPUTS, of_nat (block_totals (tx b)).1.2);
        (BITCOIN_LATEST_BLOCK_VALUE, (block_totals (tx b)).2) ]
  end.

(** The fee gauges set by the loop over the targets, up to the first
    estimate that fails; a target whose estimate has no [feerate] sets
    nothing. *)
Fixpoint fee_writes (node : bitcoind) (fees : list Z) : list (string * Q) :=
  match fees with
  | [] => []
  | num_blocks :: rest =>
      match answer (estimatesmartfee node num_blocks) with
      | Raise _ => []
      | Ok estimate =>
          match feerate estimate with
          | Some smartfee =>
              (fee_gauge_name num_blocks, smartfee) :: fee_writes node rest
          | None => fee_writes node rest
          end
      end
  end.

(** The first of the fee estimates that fails. *)
Definition fee_failure (node : bitcoind) (fees : list Z) : option exn :=
  foldr (fun smartfee later => or_else (failure (estimatesmartfee node smartfee)) later)
    None fees.

(** What [get_block] returns for the best block of [blockchaininfo]. *)
Definition looked_up (node : bitcoind) (blockchaininfo : BlockchainInfo) : option Block :=
  match answer (getblock node (bestblockhash blockchaininfo) 2) with
  | Ok b => Some b
  | Raise _ => None
  end.

Definition cycle_writes (fees : list Z) (node : bitcoind) : list (string * Q) :=
  match answer (uptime node) with Raise _ => [] | Ok uptime =>
  match answer (getmemoryinfo node "stats") with Raise _ => [] | Ok meminfo =>
  match answer (getblockchaininfo node) with Raise _ => [] | Ok blockchaininfo =>
  match answer (getnetworkinfo node) with Raise _ => [] | Ok networkinfo =>
  match answer (getchaintips node) with Raise _ => [] | Ok chaintips =>
  match answer (getmempoolinfo node) with Raise _ => [] | Ok mempool =>
  match answer (getnettotals node) with Raise _ => [] | Ok nettotals =>
  match answer (getnetworkhashps node 120) with Raise _ => [] | Ok hashps_120 =>
  match answer (getnetworkhashps node (-1)) with Raise _ => [] | Ok hashps_neg1 =>
  match answer (getnetworkhashps node 1) with Raise _ => [] | Ok hashps_1 =>
  match answer (listbanned node) with Raise _ => [] | Ok _ =>
    fetched_writes uptime blockchaininfo networkinfo hashps_120 hashps_neg1 hashps_1
    ++ fee_writes node fees
    ++ match fee_failure node fees with
       | Some _ => []
       | None =>
           match warnings networkinfo with
           | None => []
           | Some _ =>
               later_writes chaintips (locked meminfo) mempool nettotals
               ++ block_writes (looked_up node blockchaininfo)
           end
       end
  end end end end end end end end end end end.

(** The first of the eleven remote calls before any gauge is set, the
    lookup of the latest block left out, that fails. *)
Definition fetch_failure (node : bitcoind) : option exn :=
  or_else (failure (uptime node))
  (or_else (failure (getmemoryinfo node "stats"))
  (or_else (failure (getblockchaininfo node))
  (or_else (failure (getnetworkinfo node))
  (or_else (failure (getchaintips node))
  (or_else (failure (getmempoolinfo node))
  (or_else (failure (getnettotals node))
  (or_else (failure (getnetworkhashps node 120))
  (or_else (failure (getnetworkhashps node (-1)))
  (or_else (failure (getnetworkhashps node 1))
  (failure (listbanned node))))))))))).

(** How often the class [type] occurs among the failures [errs]. *)
Definition retries_of (type : string) (errs : list exn) : nat :=
  length (filter (fun err => class_of err = type) errs).

(** No counter went down from [st] to [st']. *)
Definition counters_grow : relation registry :=
  fun st st' =>
    (forall name, (counter_value st name <= counter_value st' name)%Q) /\
    (forall type, (error_count st type <= error_count st' type)%Q).



(** The names of the gauges of [fetched_writes] and of [later_writes]. *)
Definition fetched_gauges : list string :=
  [ BITCOIN_UPTIME; BITCOIN_BLOCKS; BITCOIN_PEERS; BITCOIN_DIFFICULTY;
    BITCOIN_HASHPS; BITCOIN_HASHPS_NEG1; BITCOIN_HASHPS_1;
    BITCOIN_SERVER_VERSION; BITCOIN_PROTOCOL_VERSION; BITCOIN_SIZE_ON_DISK ].

Definition later_gauges : list string :=
  [ BITCOIN_NUM_CHAINTIPS;
    BITCOIN_MEMINFO_USED; BITCOIN_MEMINFO_FREE; BITCOIN_MEMINFO_TOTAL;
    BITCOIN_MEMINFO_LOCKED; BITCOIN_MEMINFO_CHUNKS_USED; BITCOIN_MEMINFO_CHUNKS_FREE;
    BITCOIN_MEMPOOL_BYTES; BITCOIN_MEMPOOL_SIZE; BITCOIN_MEMPOOL_USAGE;
    BITCOIN_TOTAL_BYTES_RECV; BITCOIN_TOTAL_BYTES_SENT ].

(** The gauges the script creates at import time. *)
Definition static_gauges : list string :=
  fetched_gauges ++ later_gauges ++ block_gauges.


(** The counters of a registry. *)
Definition counts (st : registry) : gmap string Q * gmap string Q :=
  (counter_values st, error_values st).

(** The two lines [get_block] prints when the lookup of the latest block
    is reached and fails; nothing when it is not reached or succeeds. *)
Definition lookup_lines (node : bitcoind) : list string :=
  match answer (uptime node) with Raise _ => [] | Ok _ =>
  match answer (getmemoryinfo node "stats") with Raise _ => [] | Ok _ =>
  match answer (getblockchaininfo node) with Raise _ => [] | Ok blockchaininfo =>
  match answer (getnetworkinfo node) with Raise _ => [] | Ok _ =>
  match answer (getchaintips node) with Raise _ => [] | Ok _ =>
  match answer (getmempoolinfo node) with Raise _ => [] | Ok _ =>
  match answer (getnettotals node) with Raise _ => [] | Ok _ =>
  match answer (getblock node (bestblockhash blockchaininfo) 2) with
  | Ok _ => []
  | Raise e =>
      [ exn_str e;
        ("Error: Can't retrieve block " ++ bestblockhash blockchaininfo
          ++ " from bitcoind.")%string ]
  end end end end end end end end.

(** [name] is the fee gauge of a target of [fees] whose estimate carries a
    [feerate]. *)
Definition priced_target (fees : list Z) (node : bitcoind) (name : string) : Prop :=
  exists num_blocks estimate smartfee,
    num_blocks ∈ fees /\
    answer (estimatesmartfee node num_blocks) = Ok estimate /\
    feerate estimate = Some smartfee /\
    name = fee_gauge_name num_blocks.

(** Every gauge constructed from [st] to [st'] satisfies [P]. *)
Definition constructs_only (P : string -> Prop) : relation registry :=
  fun st st' =>
    forall name, name ∈ collectors st' -> name ∈ collectors st \/ P name.

(** * Reasoning about the script *)

(** ** Running a sequence *)

Lemma bind_Ok {A B} (m : M A) (k : A -> M B) st a st1 :
  m st = (Ok a, st1) -> bind m k st = k a st1.
Proof. intros H. unfold bind. now rewrite H. Qed.

Lemma bind_Raise {A B} (m : M A) (k : A -> M B) st e st1 :
  m st = (Raise e, st1) -> bind m k st = (Raise e, st1).
Proof. intros H. unfold bind. now rewrite H. Qed.

Lemma bind_inv_Ok {A B} (m : M A) (k : A -> M B) st b st2 :
  bind m k st = (Ok b, st2) ->
  exists a st1, m st = (Ok a, st1) /\ k a st1 = (Ok b, st2).
Proof.
  unfold bind. destruct (m st) as [[a|e] st1]; intros H.
  - now exists a, st1.
  - discriminate.
Qed.

Lemma bind_inv_Raise {A B} (m : M A) (k : A -> M B) st e st2 :
  bind m k st = (Raise e, st2) ->
  m st = (Raise e, st2) \/
  exists a st1, m st = (Ok a, st1) /\ k a st1 = (Raise e, st2).
Proof.
  unfold bind. destruct (m st) as [[a|e'] st1]; intros H.
  - right. now exists a, st1.
  - left. now inversion H.
Qed.

Section Keeps.
Context (R : relation registry) `{!PreOrder R}.

Lemma keeps_ret {A} (a : A) : keeps R (ret a).
Proof. intros st. reflexivity. Qed.

Lemma keeps_raise {A} e : keeps R (@raise A e).
Proof. intros st. reflexivity. Qed.

Lemma keeps_bind {A B} (m : M A) (k : A -> M B) :
  keeps R m ->
  (forall a, (exists st, (m st).1 = Ok a) -> keeps R (k a)) ->
  keeps R (bind m k).
Proof.
  intros Hm Hk st. unfold bind.
  specialize (Hm st). destruct (m st) as [[a|e] st1] eqn:E; simpl in *.
  - transitivity st1; [exact Hm|]. apply Hk. exists st. now rewrite E.
  - exact Hm.
Qed.

Lemma keeps_for_each {A} (xs : list A) (body : A -> M unit) :
  (forall x, x ∈ xs -> keeps R (body x)) -> keeps R (for_each xs body).
Proof.
  induction xs as [|x xs IH]; intros Hbody; simpl.
  - apply keeps_ret.
  - apply keeps_bind.
    + apply Hbody. left.
    + intros _ _. apply IH. intros y Hy. apply Hbody. now right.
Qed.
End Keeps.

#[local] Instance same_preorder {X} (f : registry -> X) : PreOrder (same f).
Proof.
  split.
  - intros st. reflexivity.
  - intros a b c Hab Hbc. unfold same in *. congruence.
Qed.

Lemma for_each_on_retry_Ok errs st : (for_each errs on_retry st).1 = Ok tt.
Proof.
  revert st. induction errs as [|e errs IH]; intros st; [reflexivity|].
  simpl. unfold bind. simpl. apply IH.
Qed.

Lemma bitcoinrpc_eq {A} (call : rpc_outcome A) st :
  bitcoinrpc call st = (answer call, note_retries (retried call) st).
Proof.
  unfold bitcoinrpc, bind, note_retries.
  pose proof (for_each_on_retry_Ok (retried call) st) as H.
  destruct (for_each (retried call) on_retry st) as [[[]|e] st1]; simpl in *.
  - reflexivity.
  - discriminate.
Qed.

Lemma bitcoinrpc_answer {A} (call : rpc_outcome A) st :
  (bitcoinrpc call st).1 = answer call.
Proof. now rewrite bitcoinrpc_eq. Qed.

Lemma result_of_bitcoinrpc {A} (call : rpc_outcome A) (a : A) :
  (exists st, (bitcoinrpc call st).1 = Ok a) -> answer call = Ok a.
Proof. intros [st H]. now rewrite bitcoinrpc_answer in H. Qed.

(** What [get_block] returns is decided by the answer to [getblock]. *)
Lemma get_block_result node block_hash st :
  (get_block node block_hash st).1 =
  Ok match answer (getblock node block_hash 2) with
     | Ok b => Some b
     | Raise _ => None
     end.
Proof.
  unfold get_block. rewrite bitcoinrpc_eq.
  destruct (answer (getblock node block_hash 2)); reflexivity.
Qed.

Lemma bind_fst {A B} (m : M A) (k : A -> M B) st :
  bind m k st =
  match (m st).1 with
  | Ok a => k a (m st).2
  | Raise e => (Raise e, (m st).2)
  end.
Proof. unfold bind. destruct (m st) as [[a|e] st1]; reflexivity. Qed.

Lemma get_block_fst node block_hash st :
  exists latest_block, (get_block node block_hash st).1 = Ok latest_block.
Proof. rewrite get_block_result. eauto. Qed.

Lemma smartfee_gauge_fst num_blocks st :
  exists gauge, (smartfee_gauge num_blocks st).1 = Ok gauge.
Proof.
  unfold smartfee_gauge.
  destruct (BITCOIN_ESTIMATED_SMART_FEE_GAUGES st !! num_blocks); simpl; eauto.
Qed.

Lemma do_smartfee_fst node num_blocks st :
  (do_smartfee node num_blocks st).1 =
  match failure (estimatesmartfee node num_blocks) with
  | Some e => Raise e
  | None => Ok tt
  end.
Proof.
  unfold do_smartfee, failure. rewrite bind_fst, bitcoinrpc_answer.
  destruct (answer (estimatesmartfee node num_blocks)) as [estimate|e]; [|reflexivity].
  destruct (feerate estimate); [|reflexivity].
  rewrite bind_fst.
  destruct (smartfee_gauge_fst num_blocks
              (bitcoinrpc (estimatesmartfee node num_blocks) st).2) as [g ->].
  reflexivity.
Qed.

Lemma smartfee_loop_fst node fees st :
  (for_each fees (fun smartfee => do_smartfee node smartfee) st).1 =
  match foldr (fun smartfee later =>
                 or_else (failure (estimatesmartfee node smartfee)) later) None fees with
  | Some e => Raise e
  | None => Ok tt
  end.
Proof.
  revert st. induction fees as [|fee fees IH]; intros st; [reflexivity|].
  simpl for_each. rewrite bind_fst, do_smartfee_fst. simpl foldr.
  destruct (failure (estimatesmartfee node fee)); [reflexivity|].
  simpl or_else. apply IH.
Qed.

Lemma ban_loop_fst (banned : list Ban) st :
  (for_each banned (fun ban =>
     labels_set BITCOIN_BAN_CREATED (address ban) (ban_reason ban) (ban_created ban) >>
     labels_set BITCOIN_BANNED_UNTIL (address ban) (ban_reason ban) (banned_until ban)) st).1
  = Ok tt.
Proof.
  revert st. induction banned as [|b banned IH]; intros st; [reflexivity|].
  simpl for_each. rewrite bind_fst. cbn [bind labels_set fst snd]. apply IH.
Qed.

Lemma publish_latest_block_fst latest_block st :
  (publish_latest_block latest_block st).1 = Ok tt.
Proof.
  destruct latest_block as [b|]; [|reflexivity].
  unfold publish_latest_block. destruct (block_totals (tx b)) as [[i o] v].
  reflexivity.
Qed.

Ltac step_call c :=
  rewrite bind_fst, bitcoinrpc_answer; unfold failure at 1;
  destruct (answer c); [cbn [or_else]|reflexivity].

Ltac step_set := rewrite bind_fst; cbn [Gauge_set fst snd].

Lemma refresh_metrics_fst fees node st :
  (refresh_metrics fees node st).1 = refresh_result fees node.
Proof.
  unfold refresh_metrics, refresh_result, first_failure.
  step_call (uptime node).
  step_call (getmemoryinfo node "stats").
  step_call (getblockchaininfo node).
  step_call (getnetworkinfo node).
  step_call (getchaintips node).
  step_call (getmempoolinfo node).
  step_call (getnettotals node).
  rewrite bind_fst.
  match goal with |- context [get_block ?n ?h ?s] =>
    destruct (get_block_fst n h s) as [latest_block ->] end.
  step_call (getnetworkhashps node 120).
  step_call (getnetworkhashps node (-1)).
  step_call (getnetworkhashps node 1).
  step_call (listbanned node).
  do 10 step_set.
  rewrite bind_fst, smartfee_loop_fst.
  match goal with |- context [foldr ?f None fees] => destruct (foldr f None fees) end;
    [reflexivity|].
  rewrite bind_fst, ban_loop_fst.
  rewrite bind_fst. unfold subscript at 1.
  match goal with |- context [warnings ?ni] => destruct (warnings ni) as [w|] end;
    [|reflexivity].
  cbn [bind ret fst snd].
  destruct (truthy w); cbn [Counter_inc ret fst snd];
    do 12 step_set; apply publish_latest_block_fst.
Qed.

Lemma keeps_mono (R1 R2 : relation registry) {A} (m : M A) :
  (forall st st', R1 st st' -> R2 st st') -> keeps R1 m -> keeps R2 m.
Proof. intros H Hm st. apply H, Hm. Qed.

Section Frames.
Context {X : Type} (f : registry -> X).

Lemma note_retries_same errs st :
  ignores f set_error_values -> f (note_retries errs st) = f st.
Proof.
  intros Hf. unfold note_retries.
  revert st. induction errs as [|e errs IH]; intros st; [reflexivity|].
  simpl for_each. rewrite bind_fst. cbn [on_retry EXPORTER_ERRORS_inc fst snd].
  rewrite IH. apply Hf.
Qed.

Lemma keeps_bitcoinrpc {A} (call : rpc_outcome A) :
  ignores f set_error_values -> keeps (same f) (bitcoinrpc call).
Proof.
  intros Hf st. unfold same. rewrite bitcoinrpc_eq. simpl.
  now apply note_retries_same.
Qed.

Lemma keeps_get_block node block_hash :
  ignores f set_error_values -> ignores f set_stdout ->
  keeps (same f) (get_block node block_hash).
Proof.
  intros He Ho st. unfold same, get_block. rewrite bitcoinrpc_eq.
  destruct (answer (getblock node block_hash 2)); simpl.
  - now apply note_retries_same.
  - rewrite !Ho. now apply note_retries_same.
Qed.

Lemma keeps_smartfee_gauge num_blocks :
  ignores f set_collectors -> ignores f set_fee_gauges ->
  keeps (same f) (smartfee_gauge num_blocks).
Proof.
  intros Hc Hd st. unfold same, smartfee_gauge.
  destruct (BITCOIN_ESTIMATED_SMART_FEE_GAUGES st !! num_blocks); simpl.
  - reflexivity.
  - now rewrite Hd, Hc.
Qed.
End Frames.

Ltac frame_step :=
  first
    [ apply keeps_ret; apply _
    | apply keeps_raise; apply _
    | apply keeps_bind; [apply _| |intros ? _]
    | apply keeps_for_each; [apply _|intros ? _]
    | apply keeps_bitcoinrpc; intros ? ?; reflexivity
    | apply keeps_get_block; intros ? ?; reflexivity
    | apply keeps_smartfee_gauge; intros ? ?; reflexivity
    | (intros ?; unfold same; reflexivity)
    | match goal with
      | |- keeps _ (match ?x with Some _ => _ | None => _ end) => destruct x
      | |- keeps _ (if ?x then _ else _) => destruct x
      | |- context [block_totals ?txs] => destruct (block_totals txs) as [[? ?] ?]
      end
    | progress unfold do_smartfee, subscript, publish_latest_block, exception_count ].

Ltac frame := repeat frame_step.

(** A cycle writes no labelled gauge but in its loop over the bans, counts
    into no counter but [BITCOIN_WARNINGS], and so on: the frames of the
    parts of [refresh_metrics]. *)
Lemma do_smartfee_same_families node num_blocks :
  keeps (same family_values) (do_smartfee node num_blocks).
Proof. frame. Qed.

Lemma do_smartfee_same_counters node num_blocks :
  keeps (same counter_values) (do_smartfee node num_blocks).
Proof. frame. Qed.

Lemma publish_latest_block_same_families latest_block :
  keeps (same family_values) (publish_latest_block latest_block).
Proof. frame. Qed.

(** ** How a turn of the loop ends *)

Lemma main_cycle_fst fees node duration st :
  (main_cycle fees node duration st).1 = cycle_outcome (refresh_result fees node).
Proof.
  unfold main_cycle. rewrite <- (refresh_metrics_fst fees node st).
  destruct (refresh_metrics fees node st) as [[[]|e] st1]; simpl; [reflexivity|].
  destruct (isinstance e RetryError); [reflexivity|].
  destruct (isinstance e JSONDecodeError); reflexivity.
Qed.

(** ** Counters *)

Lemma counter_value_inc name amount st :
  counter_value (Counter_inc name amount st).2 name
  = (counter_value st name + amount)%Q.
Proof. unfold counter_value at 1. simpl. now rewrite lookup_insert_eq. Qed.

Lemma Counter_inc_other name name' amount :
  name <> name' ->
  keeps (same (fun st => counter_value st name')) (Counter_inc name amount).
Proof.
  intros Hne st. unfold same, counter_value. simpl.
  now rewrite lookup_insert_ne.
Qed.

Lemma error_count_inc type st :
  error_count (EXPORTER_ERRORS_inc type st).2 type = (error_count st type + 1)%Q.
Proof. unfold error_count at 1. simpl. now rewrite lookup_insert_eq. Qed.

(** A cycle never counts into [PROCESS_TIME]. *)
Lemma refresh_metrics_same_process_time fees node :
  keeps (same (fun st => counter_value st PROCESS_TIME)) (refresh_metrics fees node).
Proof.
  unfold refresh_metrics.
  repeat first [ apply Counter_inc_other; discriminate | frame_step ].
Qed.

(** What [get_block] does with a failure of [getblock]. *)
Lemma get_block_Raise node block_hash st e :
  answer (getblock node block_hash 2) = Raise e ->
  get_block node block_hash st =
  (Ok None,
   set_stdout
     (fun l => l ++ [("Error: Can't retrieve block " ++ block_hash ++ " from bitcoind.")%string])
     (set_stdout (fun l => l ++ [exn_str e])
        (note_retries (retried (getblock node block_hash 2)) st))).
Proof. intros H. unfold get_block. rewrite bitcoinrpc_eq, H. reflexivity. Qed.

(** The cycle ends the same way whatever [getblock] answers. *)
Lemma refresh_result_with_getblock fees node g :
  refresh_result fees (with_getblock node g) = refresh_result fees node.
Proof. reflexivity. Qed.

Lemma first_failure_raises fees node st e :
  first_failure fees node = Some e ->
  (refresh_metrics fees node st).1 = Raise e.
Proof.
  intros H. rewrite refresh_metrics_fst. unfold refresh_result. now rewrite H.
Qed.

Lemma main_cons_None fees node duration later st :
  (main_cycle fees node duration st).1 = None ->
  main fees ((node, duration) :: later) st
  = main fees later (main_cycle fees node duration st).2.
Proof.
  intros H. simpl. destruct (main_cycle fees node duration st) as [[stop|] st1];
    [discriminate|reflexivity].
Qed.

Lemma main_cons_Some fees node duration later st stop :
  (main_cycle fees node duration st).1 = Some stop ->
  main fees ((node, duration) :: later) st
  = (Some stop, (main_cycle fees node duration st).2).
Proof.
  intros H. simpl. destruct (main_cycle fees node duration st) as [[stop'|] st1];
    simpl in H; [now inversion H|discriminate].
Qed.

(** ** The counters after a cycle *)

Lemma counter_values_bitcoinrpc {A} (call : rpc_outcome A) st :
  counter_values (bitcoinrpc call st).2 = counter_values st.
Proof. apply (keeps_bitcoinrpc counter_values). intros ? ?. reflexivity. Qed.

Lemma counter_values_get_block node block_hash st :
  counter_values (get_block node block_hash st).2 = counter_values st.
Proof. apply (keeps_get_block counter_values); intros ? ?; reflexivity. Qed.

Lemma counter_values_fee_loop node fees st :
  counter_values (fee_loop node fees st).2 = counter_values st.
Proof.
  assert (keeps (same counter_values) (fee_loop node fees)) as H
    by (unfold fee_loop; frame).
  apply H.
Qed.

Lemma counter_values_ban_loop banned st :
  counter_values (ban_loop banned st).2 = counter_values st.
Proof.
  assert (keeps (same counter_values) (ban_loop banned)) as H
    by (unfold ban_loop; frame).
  apply H.
Qed.

Lemma counter_values_publish latest_block st :
  counter_values (publish_latest_block latest_block st).2 = counter_values st.
Proof.
  assert (keeps (same counter_values) (publish_latest_block latest_block)) as H
    by frame.
  apply H.
Qed.

Create Rewrite HintDb counters.
#[local] Hint Rewrite @counter_values_bitcoinrpc counter_values_get_block
  counter_values_fee_loop counter_values_ban_loop counter_values_publish
  : counters.

Ltac settle db :=
  repeat progress
    (cbn [snd gauge_values family_values counter_values error_values collectors
          BITCOIN_ESTIMATED_SMART_FEE_GAUGES stdout
          set_gauge_values set_family_values set_counter_values set_error_values
          set_collectors set_fee_gauges set_stdout];
     autorewrite with db).

Ltac walk_call db c :=
  rewrite bind_fst, bitcoinrpc_answer; unfold failure at 1;
  destruct (answer c);
  [ cbn [or_else]
  | cbn [or_else]; settle db; reflexivity ].


(** ** The labelled gauges after a cycle *)

Lemma family_values_ban_loop banned st :
  family_values (ban_loop banned st).2 = foldl write_ban (family_values st) banned.
Proof.
  revert st. induction banned as [|b banned IH]; intros st; [reflexivity|].
  unfold ban_loop. simpl for_each. rewrite bind_fst. cbn [bind labels_set fst snd].
  fold (ban_loop banned). rewrite IH. reflexivity.
Qed.

Lemma family_values_bitcoinrpc {A} (call : rpc_outcome A) st :
  family_values (bitcoinrpc call st).2 = family_values st.
Proof. apply (keeps_bitcoinrpc family_values). intros ? ?. reflexivity. Qed.

Lemma family_values_get_block node block_hash st :
  family_values (get_block node block_hash st).2 = family_values st.
Proof. apply (keeps_get_block family_values); intros ? ?; reflexivity. Qed.

Lemma family_values_fee_loop node fees st :
  family_values (fee_loop node fees st).2 = family_values st.
Proof.
  assert (keeps (same family_values) (fee_loop node fees)) as H
    by (unfold fee_loop; frame).
  apply H.
Qed.

Lemma family_values_publish latest_block st :
  family_values (publish_latest_block latest_block st).2 = family_values st.
Proof. apply publish_latest_block_same_families. Qed.

Create Rewrite HintDb families.
#[local] Hint Rewrite @family_values_bitcoinrpc family_values_get_block
  family_values_fee_loop family_values_ban_loop family_values_publish
  : families.

Lemma refresh_metrics_family_values fees node st :
  family_values (refresh_metrics fees node st).2 = families_after fees node st.
Proof.
  unfold refresh_metrics, families_after, first_failure.
  fold (fee_loop node fees).
  walk_call families (uptime node).
  walk_call families (getmemoryinfo node "stats").
  walk_call families (getblockchaininfo node).
  walk_call families (getnetworkinfo node).
  walk_call families (getchaintips node).
  walk_call families (getmempoolinfo node).
  walk_call families (getnettotals node).
  rewrite bind_fst.
  match goal with |- context [get_block ?n ?h ?s] =>
    destruct (get_block_fst n h s) as [latest_block ->] end.
  walk_call families (getnetworkhashps node 120).
  walk_call families (getnetworkhashps node (-1)).
  walk_call families (getnetworkhashps node 1).
  walk_call families (listbanned node).
  do 10 step_set.
  rewrite bind_fst. unfold fee_loop at 1. rewrite smartfee_loop_fst.
  fold (fee_loop node fees).
  match goal with |- context [foldr ?f None fees] => destruct (foldr f None fees) end.
  { settle families. reflexivity. }
  rewrite bind_fst.
  match goal with |- context [for_each ?l ?b ?s] =>
    change (for_each l b s) with (ban_loop l s) end.
  unfold ban_loop at 1. rewrite ban_loop_fst.
  rewrite bind_fst.
  match goal with |- context [warnings ?ni] => destruct (warnings ni) as [w|] end.
  2:{ cbn [subscript raise bind fst snd]. settle families. reflexivity. }
  cbn [subscript bind ret fst snd].
  destruct (truthy w); cbn [Counter_inc ret fst snd];
    do 12 step_set; settle families; reflexivity.
Qed.

(** ** The block aggregates *)







Ltac walk_ok c :=
  rewrite bind_fst, bitcoinrpc_answer; unfold failure at 1;
  destruct (answer c);
  [ cbn [or_else] | cbn [or_else]; intros; discriminate ].

(** A cycle that returns normally ends with [publish_latest_block], on what
    the lookup of the best block gave. *)
Lemma refresh_metrics_ends_publishing fees node st blockchaininfo :
  refresh_result fees node = Ok tt ->
  answer (getblockchaininfo node) = Ok blockchaininfo ->
  exists st1,
    (refresh_metrics fees node st).2 =
    (publish_latest_block
       match answer (getblock node (bestblockhash blockchaininfo) 2) with
       | Ok b => Some b
       | Raise _ => None
       end st1).2.
Proof.
  revert blockchaininfo.
  unfold refresh_metrics, refresh_result, first_failure.
  fold (fee_loop node fees).
  walk_ok (uptime node).
  walk_ok (getmemoryinfo node "stats").
  walk_ok (getblockchaininfo node).
  walk_ok (getnetworkinfo node).
  walk_ok (getchaintips node).
  walk_ok (getmempoolinfo node).
  walk_ok (getnettotals node).
  rewrite bind_fst, get_block_result.
  walk_ok (getnetworkhashps node 120).
  walk_ok (getnetworkhashps node (-1)).
  walk_ok (getnetworkhashps node 1).
  walk_ok (listbanned node).
  do 10 step_set.
  rewrite bind_fst. unfold fee_loop at 1. rewrite smartfee_loop_fst.
  fold (fee_loop node fees).
  match goal with |- context [foldr ?f None fees] => destruct (foldr f None fees) end;
    [intros; discriminate|].
  rewrite bind_fst.
  match goal with |- context [for_each ?l ?b ?s] =>
    change (for_each l b s) with (ban_loop l s) end.
  unfold ban_loop at 1. rewrite ban_loop_fst.
  rewrite bind_fst.
  match goal with |- context [warnings ?ni] => destruct (warnings ni) as [w|] end;
    [|intros; discriminate].
  cbn [subscript bind ret fst snd].
  intros bci _ Hbci. inversion Hbci; subst.
  destruct (truthy w); cbn [Counter_inc ret fst snd];
    do 12 step_set; eexists; reflexivity.
Qed.

(** ** The fee gauges *)

Lemma fee_gauge_name_inj n m : fee_gauge_name n = fee_gauge_name m -> n = m.
Proof.
  unfold fee_gauge_name. intros H.
  apply (inj (String.append "bitcoin_est_smart_fee_")) in H.
  now apply (inj pretty) in H.
Qed.

Lemma fee_gauges_wf_initial : fee_gauges_wf initial_registry.
Proof.
  split; [constructor|]. split.
  - intros n g H. cbn in H. now rewrite lookup_empty in H.
  - intros name H. cbn in H. now apply elem_of_nil in H.
Qed.

Lemma smartfee_gauge_known num_blocks gauge st :
  BITCOIN_ESTIMATED_SMART_FEE_GAUGES st !! num_blocks = Some gauge ->
  smartfee_gauge num_blocks st = (Ok gauge, st).
Proof. intros H. unfold smartfee_gauge. now rewrite H. Qed.

Lemma smartfee_gauge_new num_blocks st :
  BITCOIN_ESTIMATED_SMART_FEE_GAUGES st !! num_blocks = None ->
  smartfee_gauge num_blocks st =
  (Ok (fee_gauge_name num_blocks),
   set_fee_gauges (insert num_blocks (fee_gauge_name num_blocks))
     (set_collectors (fun l => l ++ [fee_gauge_name num_blocks]) st)).
Proof. intros H. unfold smartfee_gauge. now rewrite H. Qed.

Lemma smartfee_gauge_wf num_blocks st :
  fee_gauges_wf st ->
  (smartfee_gauge num_blocks st).1 = Ok (fee_gauge_name num_blocks) /\
  fee_gauges_wf (smartfee_gauge num_blocks st).2 /\
  BITCOIN_ESTIMATED_SMART_FEE_GAUGES (smartfee_gauge num_blocks st).2 !! num_blocks
  = Some (fee_gauge_name num_blocks).
Proof.
  intros (Hnodup & Hdict & Hlog).
  destruct (BITCOIN_ESTIMATED_SMART_FEE_GAUGES st !! num_blocks) as [g|] eqn:E.
  - rewrite (smartfee_gauge_known _ _ _ E). cbn [fst snd].
    destruct (Hdict _ _ E) as [-> Hin].
    split; [reflexivity|]. split; [|exact E].
    split; [exact Hnodup|]. split; [exact Hdict|exact Hlog].
  - rewrite (smartfee_gauge_new _ _ E).
    unfold fee_gauges_wf, fee_gauges_wf_on.
    cbn [fst snd collectors BITCOIN_ESTIMATED_SMART_FEE_GAUGES
         set_fee_gauges set_collectors].
    assert (fee_gauge_name num_blocks ∉ collectors st) as Hfresh.
    { intros Hin. destruct (Hlog _ Hin) as (n & Hn & Hsome).
      apply fee_gauge_name_inj in Hn. subst n. congruence. }
    split; [reflexivity|]. split; [|apply lookup_insert_eq].
    split; [|split].
    + apply NoDup_app. split; [exact Hnodup|]. split; [|apply NoDup_singleton].
      intros x Hx Hx'. apply list_elem_of_singleton in Hx'. now subst.
    + intros n g H. destruct (decide (num_blocks = n)) as [->|Hne].
      * rewrite lookup_insert_eq in H. inversion H. split; [reflexivity|].
        apply elem_of_app. right. now apply list_elem_of_singleton.
      * rewrite lookup_insert_ne in H by exact Hne.
        destruct (Hdict _ _ H) as [Hg Hin]. split; [exact Hg|].
        apply elem_of_app. now left.
    + intros name Hin. apply elem_of_app in Hin as [Hin|Hin].
      * destruct (Hlog _ Hin) as (n & Hn & Hsome). exists n. split; [exact Hn|].
        rewrite lookup_insert_ne; [exact Hsome|]. intros ->. congruence.
      * apply list_elem_of_singleton in Hin. subst name.
        exists num_blocks. split; [reflexivity|]. apply lookup_insert_eq.
Qed.

#[local] Instance wf_step_preorder : PreOrder wf_step.
Proof. split; unfold wf_step; [intros st H; exact H|intros a b c; tauto]. Qed.

Lemma wf_step_of_same st st' : same fee_state st st' -> wf_step st st'.
Proof.
  unfold same, fee_state, wf_step, fee_gauges_wf. intros H. inversion H.
  congruence.
Qed.

Lemma keeps_wf_smartfee_gauge num_blocks : keeps wf_step (smartfee_gauge num_blocks).
Proof. intros st H. now apply smartfee_gauge_wf. Qed.

Ltac frame_wf :=
  repeat first
    [ apply keeps_wf_smartfee_gauge
    | solve [apply (keeps_mono (same fee_state) wf_step _ wf_step_of_same); frame]
    | frame_step ].

Lemma keeps_wf_refresh_metrics fees node : keeps wf_step (refresh_metrics fees node).
Proof. unfold refresh_metrics. frame_wf. Qed.

Lemma main_cycle_wf fees node duration st :
  fee_gauges_wf st -> fee_gauges_wf (main_cycle fees node duration st).2.
Proof.
  intros H. unfold main_cycle.
  pose proof (keeps_wf_refresh_metrics fees node st H) as H1.
  destruct (refresh_metrics fees node st) as [[[]|e] st1]; simpl in *; [exact H1|].
  destruct (isinstance e RetryError); [exact H1|].
  destruct (isinstance e JSONDecodeError); exact H1.
Qed.

Lemma main_wf fees cycles st :
  fee_gauges_wf st -> fee_gauges_wf (main fees cycles st).2.
Proof.
  revert st. induction cycles as [|[node duration] cycles IH]; intros st H; [exact H|].
  simpl. pose proof (main_cycle_wf fees node duration st H) as H1.
  destruct (main_cycle fees node duration st) as [[stop|] st1]; simpl in *.
  - exact H1.
  - now apply IH.
Qed.

(** ** The gauges of the latest block *)

Lemma fee_gauge_name_not_block num_blocks : fee_gauge_name num_blocks ∉ block_gauges.
Proof.
  unfold block_gauges, fee_gauge_name. cbn [String.append].
  rewrite !not_elem_of_cons. repeat split; try discriminate.
  apply not_elem_of_nil.
Qed.

#[local] Instance block_step_preorder n : PreOrder (block_step n).
Proof.
  split; unfold block_step.
  - intros st H. now split.
  - intros a b c Hab Hbc H. destruct (Hab H) as [Hb Eb].
    destruct (Hbc Hb) as [Hc Ec]. split; [exact Hc|congruence].
Qed.

Lemma block_step_of_same n st st' : same gauges_and_fees st st' -> block_step n st st'.
Proof.
  unfold same, gauges_and_fees, fee_state, block_step, fee_gauges_wf.
  intros H Hwf. inversion H. split; congruence.
Qed.

Lemma keeps_block_Gauge_set n name v :
  n ∈ block_gauges -> name ∉ block_gauges ->
  keeps (block_step n) (Gauge_set name v).
Proof.
  intros Hn Hname st Hwf. split; [exact Hwf|].
  cbn. apply lookup_insert_ne. intros ->. contradiction.
Qed.

Lemma keeps_block_do_smartfee n node num_blocks :
  n ∈ block_gauges -> keeps (block_step n) (do_smartfee node num_blocks).
Proof.
  intros Hn st Hwf. unfold do_smartfee.
  rewrite bind_fst, bitcoinrpc_answer.
  pose proof (keeps_bitcoinrpc gauges_and_fees (estimatesmartfee node num_blocks)
                ltac:(intros ? ?; reflexivity) st) as Hrpc.
  apply (block_step_of_same n) in Hrpc. destruct (Hrpc Hwf) as [Hwf1 E1].
  destruct (answer (estimatesmartfee node num_blocks)) as [estimate|e];
    [|now split].
  destruct (feerate estimate) as [smartfee|]; [|now split].
  rewrite bind_fst.
  destruct (smartfee_gauge_wf num_blocks _ Hwf1) as (-> & Hwf2 & _).
  pose proof (keeps_smartfee_gauge gauge_values num_blocks
                ltac:(intros ? ?; reflexivity) ltac:(intros ? ?; reflexivity)
                (bitcoinrpc (estimatesmartfee node num_blocks) st).2) as E2.
  unfold same in E2. cbn [Gauge_set snd].
  split; [exact Hwf2|].
  cbn [gauge_values set_gauge_values].
  rewrite lookup_insert_ne.
  - congruence.
  - intros <-. now apply (fee_gauge_name_not_block num_blocks).
Qed.

Ltac not_a_block_gauge :=
  apply (bool_decide_unpack _); vm_compute; exact I.

Ltac frame_block Hn :=
  repeat first
    [ apply (keeps_block_do_smartfee _ _ _ Hn)
    | apply (keeps_block_Gauge_set _ _ _ Hn); not_a_block_gauge
    | solve [apply (keeps_mono (same gauges_and_fees) (block_step _) _
                      (block_step_of_same _)); frame]
    | frame_step ].

(** When the lookup of the best block fails, a cycle writes none of the
    block gauges. *)
Lemma refresh_metrics_block_gauges fees node blockchaininfo e n :
  answer (getblockchaininfo node) = Ok blockchaininfo ->
  answer (getblock node (bestblockhash blockchaininfo) 2) = Raise e ->
  n ∈ block_gauges ->
  keeps (block_step n) (refresh_metrics fees node).
Proof.
  intros Hbci He Hn. unfold refresh_metrics.
  apply keeps_bind; [apply _|frame_block Hn|intros ? _].
  apply keeps_bind; [apply _|frame_block Hn|intros ? _].
  apply keeps_bind; [apply _|frame_block Hn|intros bci Hres].
  apply result_of_bitcoinrpc in Hres. rewrite Hbci in Hres. inversion Hres; subst bci.
  apply keeps_bind; [apply _|frame_block Hn|intros ? _].
  apply keeps_bind; [apply _|frame_block Hn|intros ? _].
  apply keeps_bind; [apply _|frame_block Hn|intros ? _].
  apply keeps_bind; [apply _|frame_block Hn|intros ? _].
  apply keeps_bind; [apply _|frame_block Hn|intros latest_block [st0 Hlookup]].
  rewrite get_block_result, He in Hlookup. inversion Hlookup; subst latest_block.
  frame_block Hn.
Qed.

(** ** Two cycles that differ in the lookup of the best block *)

Lemma agree_off_block_refl st : agree_off_block st st.
Proof. repeat split. Qed.

Lemma agree_published st1 st2 st1' st2' :
  published st1' = published st1 -> published st2' = published st2 ->
  agree_off_block st1 st2 -> agree_off_block st1' st2'.
Proof.
  unfold published, agree_off_block. intros H1 H2 (Hg & Hf & Hc & Hd).
  unfold fee_state in *.
  injection H1 as G1 F1 C1 L1 D1. injection H2 as G2 F2 C2 L2 D2.
  split; [|repeat split; congruence].
  intros n Hn. rewrite G1, G2. now apply Hg.
Qed.

Lemma simulates_ret {A} (RA : A -> A -> Prop) a1 a2 :
  RA a1 a2 -> simulates RA (ret a1) (ret a2).
Proof. intros H st1 st2 Hst. now split. Qed.

Lemma simulates_raise {A} (RA : A -> A -> Prop) e :
  simulates RA (raise e) (raise e).
Proof. intros st1 st2 Hst. now split. Qed.

Lemma simulates_bind {A B} (RA : A -> A -> Prop) (RB : B -> B -> Prop)
    (m1 m2 : M A) (k1 k2 : A -> M B) :
  simulates RA m1 m2 ->
  (forall a1 a2, RA a1 a2 -> simulates RB (k1 a1) (k2 a2)) ->
  simulates RB (bind m1 k1) (bind m2 k2).
Proof.
  intros Hm Hk st1 st2 Hst. rewrite !bind_fst.
  destruct (Hm st1 st2 Hst) as [Hend Hst'].
  destruct (m1 st1).1 as [a1|e1], (m2 st2).1 as [a2|e2]; simpl in Hend;
    try contradiction.
  - now apply Hk.
  - subst. now split.
Qed.

Lemma simulates_bind_eq {A B} (RB : B -> B -> Prop)
    (m1 m2 : M A) (k1 k2 : A -> M B) :
  simulates eq m1 m2 ->
  (forall a, simulates RB (k1 a) (k2 a)) ->
  simulates RB (bind m1 k1) (bind m2 k2).
Proof.
  intros Hm Hk. apply (simulates_bind eq); [exact Hm|].
  intros a1 a2 <-. apply Hk.
Qed.

Lemma simulates_for_each {A} (xs : list A) (body1 body2 : A -> M unit) :
  (forall x, simulates eq (body1 x) (body2 x)) ->
  simulates eq (for_each xs body1) (for_each xs body2).
Proof.
  intros Hbody. induction xs as [|x xs IH]; simpl.
  - now apply simulates_ret.
  - apply simulates_bind_eq; [apply Hbody|]. intros _. exact IH.
Qed.

(** Two computations that touch nothing published simulate each other when
    they end the same way. *)
Lemma simulates_of_keeps {A} (RA : A -> A -> Prop) (m1 m2 : M A) :
  keeps (same published) m1 -> keeps (same published) m2 ->
  (forall st1 st2, same_end RA (m1 st1).1 (m2 st2).1) ->
  simulates RA m1 m2.
Proof.
  intros H1 H2 Hend st1 st2 Hst. split; [apply Hend|].
  eapply agree_published; [apply H1|apply H2|exact Hst].
Qed.

Lemma simulates_bitcoinrpc {A} (call : rpc_outcome A) :
  simulates eq (bitcoinrpc call) (bitcoinrpc call).
Proof.
  apply simulates_of_keeps; try (apply keeps_bitcoinrpc; intros ? ?; reflexivity).
  intros st1 st2. rewrite !bitcoinrpc_answer. now destruct (answer call).
Qed.

Lemma simulates_get_block node1 node2 block_hash :
  simulates (fun _ _ => True) (get_block node1 block_hash) (get_block node2 block_hash).
Proof.
  apply simulates_of_keeps; try (apply keeps_get_block; intros ? ?; reflexivity).
  intros st1 st2. rewrite !get_block_result. exact I.
Qed.

Lemma simulates_Gauge_set name v : simulates eq (Gauge_set name v) (Gauge_set name v).
Proof.
  intros st1 st2 (Hg & Hf & Hc & Hd). split; [reflexivity|].
  repeat split; try assumption.
  intros n Hn. cbn. destruct (decide (name = n)) as [->|Hne].
  - now rewrite !lookup_insert_eq.
  - rewrite !lookup_insert_ne by exact Hne. now apply Hg.
Qed.

Lemma simulates_labels_set family addr reason v :
  simulates eq (labels_set family addr reason v) (labels_set family addr reason v).
Proof.
  intros st1 st2 (Hg & Hf & Hc & Hd). split; [reflexivity|].
  repeat split; try assumption. cbn. now rewrite Hf.
Qed.

Lemma simulates_Counter_inc name amount :
  simulates eq (Counter_inc name amount) (Counter_inc name amount).
Proof.
  intros st1 st2 (Hg & Hf & Hc & Hd). split; [reflexivity|].
  repeat split; try assumption. cbn. unfold counter_value. now rewrite Hc.
Qed.

Lemma simulates_smartfee_gauge num_blocks :
  simulates eq (smartfee_gauge num_blocks) (smartfee_gauge num_blocks).
Proof.
  intros st1 st2 (Hg & Hf & Hc & Hd). unfold smartfee_gauge.
  unfold fee_state in Hd. inversion Hd as [[Hlog Hdict]]. rewrite Hdict.
  destruct (BITCOIN_ESTIMATED_SMART_FEE_GAUGES st2 !! num_blocks); cbn.
  - split; [reflexivity|]. repeat split; assumption.
  - split; [reflexivity|]. repeat split; try assumption.
    unfold fee_state. cbn. now rewrite Hlog, Hdict.
Qed.

Lemma publish_latest_block_off_block latest_block st n :
  n ∉ block_gauges ->
  gauge_values (publish_latest_block latest_block st).2 !! n = gauge_values st !! n.
Proof.
  intros Hn. destruct latest_block as [b|]; [|reflexivity].
  unfold publish_latest_block. destruct (block_totals (tx b)) as [[i o] v].
  cbn. unfold block_gauges in Hn. rewrite !not_elem_of_cons in Hn.
  destruct Hn as (H1 & H2 & H3 & H4 & H5 & H6 & H7 & _).
  rewrite !lookup_insert_ne by congruence. reflexivity.
Qed.

Lemma simulates_publish latest_block1 latest_block2 :
  simulates eq (publish_latest_block latest_block1) (publish_latest_block latest_block2).
Proof.
  intros st1 st2 (Hg & Hf & Hc & Hd). rewrite !publish_latest_block_fst.
  split; [reflexivity|].
  assert (forall lb, keeps (same (fun st => (family_values st, counter_values st, fee_state st)))
                       (publish_latest_block lb)) as Hrest by (intros lb; frame).
  pose proof (Hrest latest_block1 st1) as E1. pose proof (Hrest latest_block2 st2) as E2.
  unfold same in E1, E2. inversion E1. inversion E2.
  repeat split; try congruence.
  intros n Hn. rewrite !publish_latest_block_off_block by exact Hn. now apply Hg.
Qed.

Ltac sim_step :=
  first
    [ apply simulates_ret; reflexivity
    | apply simulates_raise
    | apply simulates_bitcoinrpc
    | apply simulates_Gauge_set
    | apply simulates_labels_set
    | apply simulates_Counter_inc
    | apply simulates_smartfee_gauge
    | apply simulates_publish
    | apply simulates_for_each; intros ?
    | apply (simulates_bind (fun _ _ => True)); [apply simulates_get_block|intros ? ? _]
    | apply simulates_bind_eq; [|intros ?]
    | match goal with
      | |- simulates _ (match ?x with Some _ => _ | None => _ end) _ => destruct x
      | |- simulates _ (if ?x then _ else _) _ => destruct x
      end
    | progress unfold do_smartfee, subscript ].

(** What [getblock] answers changes nothing of a cycle but the block
    gauges, the log and the error counts. *)
Lemma refresh_metrics_simulates fees node g :
  simulates eq (refresh_metrics fees node) (refresh_metrics fees (with_getblock node g)).
Proof.
  unfold refresh_metrics.
  cbn [with_getblock uptime getmemoryinfo getblockchaininfo getnetworkinfo
       getchaintips getmempoolinfo getnettotals getblock getnetworkhashps
       listbanned estimatesmartfee].
  repeat sim_step.
Qed.

(** * The main loop and failures *)

Lemma stdout_note_retries errs st : stdout (note_retries errs st) = stdout st.
Proof. apply note_retries_same. intros ? ?. reflexivity. Qed.

Lemma main_cycle_process_time fees node duration st :
  counter_value (main_cycle fees node duration st).2 PROCESS_TIME =
  match (main_cycle fees node duration st).1 with
  | None => (counter_value st PROCESS_TIME + total_seconds duration)%Q
  | Some _ => counter_value st PROCESS_TIME
  end.
Proof.
  pose proof (refresh_metrics_same_process_time fees node st) as Hsame.
  unfold same in Hsame. unfold main_cycle.
  destruct (refresh_metrics fees node st) as [[[]|e] st1]; cbn [fst snd] in *.
  - now rewrite counter_value_inc, Hsame.
  - destruct (isinstance e RetryError); cbn [fst snd].
    + rewrite counter_value_inc. now rewrite <- Hsame.
    + destruct (isinstance e JSONDecodeError); cbn [fst snd]; exact Hsame.
Qed.

(** C3 (as amended).  A retry-budget failure, an instance of [RetryError],
    does not end the process.  Raised by a remote call of the cycle other
    than the lookup of the latest block, it leaves [refresh_metrics] and the
    loop of [main] catches it: it prints the cause, counts the failure under
    its class in the error counter, still adds the duration of the cycle to
    the process-time counter and goes on to the next cycle.  Raised by the
    lookup of the latest block, it never reaches the loop: [get_block]
    catches it, prints it and returns [None], and nothing is counted for
    it. *)
Theorem retry_failure_is_caught fees node duration st e :
  isinstance e RetryError = true ->
  (first_failure fees node = Some e ->
     let st1 := (refresh_metrics fees node st).2 in
     let st2 := (main_cycle fees node duration st).2 in
     (refresh_metrics fees node st).1 = Raise e /\
     (main_cycle fees node duration st).1 = None /\
     stdout st2 = stdout st1 ++ ["Refresh failed during retry. Cause: " ++ exn_str e]%string /\
     error_count st2 (class_of e) = (error_count st1 (class_of e) + 1)%Q /\
     counter_value st2 PROCESS_TIME
       = (counter_value st PROCESS_TIME + total_seconds duration)%Q /\
     forall later, main fees ((node, duration) :: later) st = main fees later st2) /\
  (forall block_hash st0,
     answer (getblock node block_hash 2) = Raise e ->
     let st1 := (get_block node block_hash st0).2 in
     (get_block node block_hash st0).1 = Ok None /\
     stdout st1 = stdout st0 ++
       [exn_str e; "Error: Can't retrieve block " ++ block_hash ++ " from bitcoind."]%string /\
     error_values st1
       = error_values (note_retries (retried (getblock node block_hash 2)) st0)).
Proof.
  intros Hretry. split.
  - intros Hfirst st1 st2.
    pose proof (first_failure_raises fees node st e Hfirst) as Hraise.
    assert ((main_cycle fees node duration st).1 = None) as Hgo.
    { rewrite main_cycle_fst, <- (refresh_metrics_fst fees node st), Hraise.
      simpl. now rewrite Hretry. }
    split; [exact Hraise|]. split; [exact Hgo|].
    split; [|split; [|split]].
    + subst st1 st2. unfold main_cycle.
      destruct (refresh_metrics fees node st) as [r s1]; cbn [fst snd] in *.
      subst r. rewrite Hretry. reflexivity.
    + subst st1 st2. unfold main_cycle.
      destruct (refresh_metrics fees node st) as [r s1]; cbn [fst snd] in *.
      subst r. rewrite Hretry. cbn [fst snd Counter_inc].
      unfold error_count at 1.
      cbn [error_values set_counter_values exception_count EXPORTER_ERRORS_inc
           bind print snd set_error_values].
      unfold class_of. now rewrite lookup_insert_eq.
    + subst st2. rewrite main_cycle_process_time. now rewrite Hgo.
    + intros later. now apply main_cons_None.
  - intros block_hash st0 Hfail st1. subst st1.
    rewrite (get_block_Raise _ _ _ _ Hfail). cbn [fst snd stdout set_stdout error_values].
    rewrite stdout_note_retries, <- app_assoc. repeat split.
Qed.

Lemma retry_failure_is_caught_witness :
  let node := with_uptime example_node (raises retry_timeout) in
  let st2 := (main_cycle default_fees node 1500000 initial_registry).2 in
  (main_cycle default_fees node 1500000 initial_registry).1 = None /\
  stdout st2 = ["Refresh failed during retry. Cause: Timeout exceeded"] /\
  error_count st2 "riprova.exceptions.RetryTimeoutError" = 1%Q /\
  counter_value st2 PROCESS_TIME = (0 + total_seconds 1500000)%Q.
Proof.
  intros node st2.
  destruct (retry_failure_is_caught default_fees node 1500000 initial_registry
              retry_timeout eq_refl) as [Hloop _].
  destruct (Hloop eq_refl) as (_ & Hgo & Hout & Hcount & Htime & _).
  split; [exact Hgo|]. split; [exact Hout|]. split; [exact Hcount|exact Htime].
Defined.

(** C3, the claim as written fails: a [RetryError] raised inside the lookup
    of the latest block is not caught by the loop and not counted.  The
    cycle completes, the error counter stays at zero for its class, and
    the only lines printed are those of [get_block]. *)
Lemma retry_failure_in_get_block_is_not_counted :
  let node := with_getblock example_node (fun _ _ => raises retry_timeout) in
  let out := main_cycle default_fees node 1500000 initial_registry in
  isinstance retry_timeout RetryError = true /\
  answer (getblock node "000000000019d6" 2) = Raise retry_timeout /\
  (refresh_metrics default_fees node initial_registry).1 = Ok tt /\
  out.1 = None /\
  error_count out.2 (class_of retry_timeout) = 0%Q /\
  stdout out.2 =
    ["Timeout exceeded"; "Error: Can't retrieve block 000000000019d6 from bitcoind."].
Proof. vm_compute. repeat split. Qed.

(** C4 (as amended).  A protocol failure, an instance of [JSONDecodeError]
    (and so not of [RetryError]), raised by a remote call of the cycle other
    than the lookup of the latest block ends the process with exit status
    1, after a line on the log; no later cycle runs.  Raised by the lookup of
    the latest block it is caught there: [get_block] returns [None]. *)
Theorem protocol_failure_exits fees node duration st e :
  isinstance e JSONDecodeError = true ->
  isinstance e RetryError = false ->
  (first_failure fees node = Some e ->
     (main_cycle fees node duration st).1 = Some (SystemExit 1) /\
     stdout (main_cycle fees node duration st).2
       = stdout (refresh_metrics fees node st).2 ++
         ["RPC call did not return JSON. Bad credentials? " ++ exn_str e]%string /\
     forall later,
       (main fees ((node, duration) :: later) st).1 = Some (SystemExit 1)) /\
  (forall block_hash st0,
     answer (getblock node block_hash 2) = Raise e ->
     (get_block node block_hash st0).1 = Ok None).
Proof.
  intros Hjson Hretry. split.
  - intros Hfirst.
    pose proof (first_failure_raises fees node st e Hfirst) as Hraise.
    assert ((main_cycle fees node duration st).1 = Some (SystemExit 1)) as Hexit.
    { rewrite main_cycle_fst, <- (refresh_metrics_fst fees node st), Hraise.
      simpl. now rewrite Hretry, Hjson. }
    split; [exact Hexit|]. split.
    + unfold main_cycle.
      destruct (refresh_metrics fees node st) as [r s1]; cbn [fst snd] in *.
      subst r. rewrite Hretry, Hjson. reflexivity.
    + intros later. now rewrite (main_cons_Some _ _ _ _ _ _ Hexit).
  - intros block_hash st0 Hfail. now rewrite get_block_result, Hfail.
Qed.

Lemma protocol_failure_exits_witness :
  let node := with_uptime example_node (raises json_error) in
  (main_cycle default_fees node 1500000 initial_registry).1 = Some (SystemExit 1) /\
  (main default_fees [(node, 1500000%N); (example_node, 1500000%N)] initial_registry).1
    = Some (SystemExit 1).
Proof.
  intros node.
  destruct (protocol_failure_exits default_fees node 1500000 initial_registry
              json_error eq_refl eq_refl) as [Hloop _].
  destruct (Hloop eq_refl) as (Hexit & _ & Hmain).
  split; [exact Hexit|apply Hmain].
Defined.

(** C4, the claim as written fails: a [JSONDecodeError] raised by the
    [getblock] call of a cycle does not end the process.  The cycle
    completes and the loop goes on, here through two cycles. *)
Lemma protocol_failure_in_get_block_goes_on :
  let node := with_getblock example_node (fun _ _ => raises json_error) in
  isinstance json_error JSONDecodeError = true /\
  answer (getblock node "000000000019d6" 2) = Raise json_error /\
  (main_cycle default_fees node 1500000 initial_registry).1 = None /\
  (main default_fees [(node, 1500000%N); (node, 1500000%N)] initial_registry).1 = None.
Proof. vm_compute. repeat split. Qed.



(** C10.  [get_block] swallows every exception: whatever [getblock] raises,
    a protocol failure included, the lookup prints it and returns [None]
    and raises nothing; the caller then publishes nothing about the block,
    and whether the loop of [main] goes on or stops after the cycle is what
    it would be had [getblock] answered anything else. *)
Theorem get_block_swallows_every_exception node block_hash st e :
  answer (getblock node block_hash 2) = Raise e ->
  (get_block node block_hash st).1 = Ok None /\
  stdout (get_block node block_hash st).2 = stdout st ++
    [exn_str e; "Error: Can't retrieve block " ++ block_hash ++ " from bitcoind."]%string /\
  (forall st1, publish_latest_block None st1 = (Ok tt, st1)) /\
  (forall fees duration st0 g,
     (refresh_metrics fees node st0).1 = (refresh_metrics fees (with_getblock node g) st0).1 /\
     (main_cycle fees node duration st0).1
     = (main_cycle fees (with_getblock node g) duration st0).1).
Proof.
  intros Hfail. split; [now rewrite get_block_result, Hfail|]. split.
  - rewrite (get_block_Raise _ _ _ _ Hfail). cbn [snd stdout set_stdout].
    now rewrite stdout_note_retries, <- app_assoc.
  - split; [reflexivity|]. intros fees duration st0 g.
    now rewrite !main_cycle_fst, !refresh_metrics_fst, refresh_result_with_getblock.
Qed.

Lemma get_block_swallows_every_exception_witness :
  let node := with_getblock example_node (fun _ _ => raises json_error) in
  (get_block node "000000000019d6" initial_registry).1 = Ok None /\
  stdout (get_block node "000000000019d6" initial_registry).2 =
    ["Expecting value: line 1 column 1 (char 0)";
     "Error: Can't retrieve block 000000000019d6 from bitcoind."] /\
  (main_cycle default_fees node 1500000 initial_registry).1
  = (main_cycle default_fees example_node 1500000 initial_registry).1.
Proof.
  intros node.
  destruct (get_block_swallows_every_exception node "000000000019d6"
              initial_registry json_error eq_refl) as (Hnone & Hout & _ & Hsame).
  split; [exact Hnone|]. split; [exact Hout|].
  exact (proj2 (Hsame default_fees 1500000%N initial_registry (getblock example_node))).
Defined.

(** * What a cycle publishes *)







(** ** The ban gauges *)










(** ** The fee gauges, across cycles and lookups *)

Lemma lookup_gauges_wf targets st :
  fee_gauges_wf st -> fee_gauges_wf (lookup_gauges targets st).2.
Proof.
  assert (keeps wf_step (lookup_gauges targets)) as H
    by (unfold lookup_gauges; frame_wf).
  apply H.
Qed.

(** C5.  However many cycles have run and lookups were made since the
    process started, no fee gauge has been constructed twice.  A lookup of a
    target count returns the gauge named after that count, and a second
    lookup of the same count returns the same gauge and constructs nothing.
    Two different counts give two different gauges, and setting one leaves
    the value of the other alone. *)
Theorem fee_gauge_created_once fees history targets n m :
  let st := (lookup_gauges targets (main fees history initial_registry).2).2 in
  let st1 := (smartfee_gauge n st).2 in
  NoDup (collectors st) /\
  (smartfee_gauge n st).1 = Ok (fee_gauge_name n) /\
  smartfee_gauge n st1 = (Ok (fee_gauge_name n), st1) /\
  NoDup (collectors st1) /\
  (n <> m ->
   (smartfee_gauge m st1).1 = Ok (fee_gauge_name m) /\
   fee_gauge_name n <> fee_gauge_name m /\
   forall v st2,
     gauge_values (Gauge_set (fee_gauge_name n) v st2).2 !! fee_gauge_name n = Some v /\
     gauge_values (Gauge_set (fee_gauge_name n) v st2).2 !! fee_gauge_name m
     = gauge_values st2 !! fee_gauge_name m).
Proof.
  intros st st1.
  assert (fee_gauges_wf st) as Hwf.
  { apply lookup_gauges_wf, main_wf, fee_gauges_wf_initial. }
  destruct (smartfee_gauge_wf n st Hwf) as (Hres & Hwf1 & Hknown).
  fold st1 in Hwf1, Hknown.
  split; [apply Hwf|]. split; [exact Hres|].
  split; [now apply smartfee_gauge_known|]. split; [apply Hwf1|].
  intros Hne. split; [now apply smartfee_gauge_wf|].
  assert (fee_gauge_name n <> fee_gauge_name m) as Hnames
    by (intros H; now apply fee_gauge_name_inj in H).
  split; [exact Hnames|]. intros v st2. cbn. split.
  - apply lookup_insert_eq.
  - now apply lookup_insert_ne.
Qed.

(** C6.  In a cycle in which the lookup of the latest block fails, the four
    block gauges and the three aggregate gauges are not written: each keeps
    the value it had, or stays unset.  Everything else goes as in a cycle
    against a node that differs only in what [getblock] answers: the cycle
    ends the same way, and every other gauge, every ban gauge, every
    counter and the fee gauges end up the same. *)
Theorem failed_lookup_leaves_block_gauges fees history node blockchaininfo e :
  answer (getblockchaininfo node) = Ok blockchaininfo ->
  answer (getblock node (bestblockhash blockchaininfo) 2) = Raise e ->
  let st := (main fees history initial_registry).2 in
  let st' := (refresh_metrics fees node st).2 in
  (forall n, n ∈ block_gauges -> gauge_values st' !! n = gauge_values st !! n) /\
  (forall g,
     let other := refresh_metrics fees (with_getblock node g) st in
     other.1 = (refresh_metrics fees node st).1 /\
     (forall n, n ∉ block_gauges -> gauge_values st' !! n = gauge_values other.2 !! n) /\
     family_values st' = family_values other.2 /\
     counter_values st' = counter_values other.2 /\
     collectors st' = collectors other.2 /\
     BITCOIN_ESTIMATED_SMART_FEE_GAUGES st' = BITCOIN_ESTIMATED_SMART_FEE_GAUGES other.2).
Proof.
  intros Hbci Hfail st st'. split.
  - intros n Hn.
    apply (refresh_metrics_block_gauges fees node blockchaininfo e n Hbci Hfail Hn st).
    apply main_wf, fee_gauges_wf_initial.
  - intros g other. subst other st'.
    destruct (refresh_metrics_simulates fees node g st st (agree_off_block_refl st))
      as [Hend (Hg & Hf & Hc & Hd)].
    split.
    + rewrite !refresh_metrics_fst. apply refresh_result_with_getblock.
    + unfold fee_state in Hd. injection Hd as Hlog Hdict. repeat split; assumption.
Qed.

(** After one healthy cycle, a cycle whose lookup fails: the block gauges
    still show the block of the first cycle, and the uptime gauge is
    written as in a cycle whose lookup succeeds. *)
Lemma failed_lookup_leaves_block_gauges_witness :
  let node := with_uptime (with_getblock example_node (fun _ _ => raises json_error))
                (returns 7200) in
  let st := (main default_fees [(example_node, 1500000%N)] initial_registry).2 in
  let st' := (refresh_metrics default_fees node st).2 in
  gauge_values st' !! BITCOIN_LATEST_BLOCK_INPUTS = Some 6%Q /\
  gauge_values st' !! BITCOIN_LATEST_BLOCK_HEIGHT = Some 700000%Q /\
  gauge_values st' !! BITCOIN_UPTIME = Some 7200%Q.
Proof.
  intros node st st'.
  destruct (failed_lookup_leaves_block_gauges default_fees
              [(example_node, 1500000%N)] node
              {| blocks := 700000%Q; difficulty := 1%Q; size_on_disk := 5000%Q;
                 bestblockhash := "000000000019d6" |}
              json_error eq_refl eq_refl) as [Hkept Hother].
  subst st' st. cbv zeta in Hother.
  split; [|split].
  - rewrite (Hkept BITCOIN_LATEST_BLOCK_INPUTS)
      by (apply (bool_decide_unpack _); vm_compute; exact I).
    vm_compute. reflexivity.
  - rewrite (Hkept BITCOIN_LATEST_BLOCK_HEIGHT)
      by (apply (bool_decide_unpack _); vm_compute; exact I).
    vm_compute. reflexivity.
  - destruct (Hother (getblock example_node)) as (_ & Hgauges & _).
    rewrite (Hgauges BITCOIN_UPTIME)
      by (apply (bool_decide_unpack _); vm_compute; exact I).
    vm_compute. reflexivity.
Defined.

(** * Which failures the decorator is told to retry *)

(** [error_evaluator] answers [True] for the instances of the two classes of
    [RETRY_EXCEPTIONS], subclasses included, and for nothing else. *)
Lemma error_evaluator_spec e :
  error_evaluator e = true <->
  isinstance e InWarmupError = true \/ isinstance e ConnectionRefusedError = true.
Proof.
  unfold error_evaluator, isinstance_any, RETRY_EXCEPTIONS. simpl.
  rewrite !orb_true_iff. split.
  - intros [H|[H|H]]; [now left|now right|discriminate].
  - intros [H|H]; [now left|right; now left].
Qed.

Example error_evaluator_json_error : error_evaluator json_error = false.
Proof. reflexivity. Qed.

(** * More of the script *)

(** ** Lists of writes *)

Lemma apply_writes_app ws1 ws2 gauges :
  apply_writes (ws1 ++ ws2) gauges = apply_writes ws2 (apply_writes ws1 gauges).
Proof. unfold apply_writes. apply foldl_app. Qed.

Lemma apply_writes_union ws (written gauges : gmap string Q) :
  apply_writes ws (written ∪ gauges) = apply_writes ws written ∪ gauges.
Proof.
  revert written. induction ws as [|[k v] ws IH]; intros written; [reflexivity|].
  unfold apply_writes in *. simpl. unfold write at 2 4. simpl.
  rewrite insert_union_l. apply IH.
Qed.

Lemma apply_writes_over ws (gauges : gmap string Q) :
  apply_writes ws gauges = apply_writes ws ∅ ∪ gauges.
Proof. rewrite <- apply_writes_union. now rewrite (left_id ∅ (∪)). Qed.

(** Making the same writes a second time changes nothing. *)
Lemma apply_writes_twice ws (gauges : gmap string Q) :
  apply_writes ws (apply_writes ws gauges) = apply_writes ws gauges.
Proof.
  rewrite (apply_writes_over ws gauges).
  rewrite (apply_writes_over ws (_ ∪ _)).
  rewrite (assoc (∪)). now rewrite (idemp (∪)).
Qed.

Lemma lookup_apply_writes_other ws (gauges : gmap string Q) k :
  k ∉ map fst ws -> apply_writes ws gauges !! k = gauges !! k.
Proof.
  revert gauges. induction ws as [|[k' v] ws IH]; intros gauges H; [reflexivity|].
  simpl in H. apply not_elem_of_cons in H as [Hne Hrest].
  unfold apply_writes in *. simpl. rewrite IH by exact Hrest.
  unfold write. simpl. now apply lookup_insert_ne.
Qed.

Lemma lookup_apply_writes_own ws (gauges : gmap string Q) k v :
  NoDup (map fst ws) -> (k, v) ∈ ws -> apply_writes ws gauges !! k = Some v.
Proof.
  revert gauges. induction ws as [|[k' v'] ws IH]; intros gauges Hnodup Hin.
  - now apply elem_of_nil in Hin.
  - simpl in Hnodup. apply NoDup_cons in Hnodup as [Hfresh Hnodup].
    apply elem_of_cons in Hin as [Heq|Hin].
    + inversion Heq; subst k' v'. unfold apply_writes. simpl.
      fold (apply_writes ws (write gauges (k, v))).
      rewrite lookup_apply_writes_other by exact Hfresh.
      unfold write. simpl. apply lookup_insert_eq.
    + unfold apply_writes. simpl. now apply IH.
Qed.

(** ** The gauges after a cycle *)

Lemma gauge_values_bitcoinrpc {A} (call : rpc_outcome A) st :
  gauge_values (bitcoinrpc call st).2 = gauge_values st.
Proof. apply (keeps_bitcoinrpc gauge_values). intros ? ?. reflexivity. Qed.

Lemma gauge_values_get_block node block_hash st :
  gauge_values (get_block node block_hash st).2 = gauge_values st.
Proof. apply (keeps_get_block gauge_values); intros ? ?; reflexivity. Qed.

Lemma gauge_values_ban_loop banned st :
  gauge_values (ban_loop banned st).2 = gauge_values st.
Proof.
  assert (keeps (same gauge_values) (ban_loop banned)) as H
    by (unfold ban_loop; frame).
  apply H.
Qed.

Lemma gauge_values_publish latest_block st :
  gauge_values (publish_latest_block latest_block st).2
  = apply_writes (block_writes latest_block) (gauge_values st).
Proof.
  destruct latest_block as [b|]; [|reflexivity].
  unfold publish_latest_block, block_writes.
  destruct (block_totals (tx b)) as [[i o] v]. reflexivity.
Qed.

Lemma fee_state_bitcoinrpc {A} (call : rpc_outcome A) st :
  fee_state (bitcoinrpc call st).2 = fee_state st.
Proof. apply (keeps_bitcoinrpc fee_state). intros ? ?. reflexivity. Qed.

Lemma fee_state_get_block node block_hash st :
  fee_state (get_block node block_hash st).2 = fee_state st.
Proof. apply (keeps_get_block fee_state); intros ? ?; reflexivity. Qed.

Lemma fee_state_set_gauge_values f st :
  fee_state (set_gauge_values f st) = fee_state st.
Proof. reflexivity. Qed.

Lemma fee_gauges_wf_fee_state st st' :
  fee_state st' = fee_state st -> fee_gauges_wf st -> fee_gauges_wf st'.
Proof. intros H. now apply wf_step_of_same. Qed.

(** One fee estimate: the gauge of the target gets the [feerate] when the
    call answers with one, and no gauge is touched otherwise. *)
Lemma do_smartfee_gauges node num_blocks st :
  fee_gauges_wf st ->
  fee_gauges_wf (do_smartfee node num_blocks st).2 /\
  gauge_values (do_smartfee node num_blocks st).2 =
  match answer (estimatesmartfee node num_blocks) with
  | Raise _ => gauge_values st
  | Ok estimate =>
      match feerate estimate with
      | Some smartfee => <[fee_gauge_name num_blocks := smartfee]> (gauge_values st)
      | None => gauge_values st
      end
  end.
Proof.
  intros Hwf. unfold do_smartfee. rewrite bind_fst, bitcoinrpc_answer.
  assert (fee_gauges_wf (bitcoinrpc (estimatesmartfee node num_blocks) st).2) as Hwf1
    by (eapply fee_gauges_wf_fee_state; [apply fee_state_bitcoinrpc|exact Hwf]).
  pose proof (gauge_values_bitcoinrpc (estimatesmartfee node num_blocks) st) as Hg1.
  destruct (answer (estimatesmartfee node num_blocks)) as [estimate|e];
    [|now split].
  destruct (feerate estimate) as [smartfee|]; [|now split].
  rewrite bind_fst.
  destruct (smartfee_gauge_wf num_blocks _ Hwf1) as (-> & Hwf2 & _).
  pose proof (keeps_smartfee_gauge gauge_values num_blocks
                ltac:(intros ? ?; reflexivity) ltac:(intros ? ?; reflexivity)
                (bitcoinrpc (estimatesmartfee node num_blocks) st).2) as Hg2.
  unfold same in Hg2. cbn [Gauge_set snd gauge_values set_gauge_values].
  split; [exact Hwf2|]. now rewrite Hg2, Hg1.
Qed.

Lemma fee_loop_gauges node fees st :
  fee_gauges_wf st ->
  fee_gauges_wf (fee_loop node fees st).2 /\
  gauge_values (fee_loop node fees st).2
  = apply_writes (fee_writes node fees) (gauge_values st).
Proof.
  revert st. induction fees as [|fee fees IH]; intros st Hwf; [now split|].
  unfold fee_loop. simpl for_each. fold (fee_loop node fees).
  rewrite bind_fst, do_smartfee_fst. unfold failure. simpl fee_writes.
  destruct (do_smartfee_gauges node fee st Hwf) as [Hwf1 Hg1].
  destruct (answer (estimatesmartfee node fee)) as [estimate|e].
  - destruct (IH _ Hwf1) as [Hwf2 Hg2]. split; [exact Hwf2|].
    rewrite Hg2, Hg1. now destruct (feerate estimate).
  - now split.
Qed.

Create Rewrite HintDb gauges.
#[local] Hint Rewrite @gauge_values_bitcoinrpc gauge_values_get_block
  gauge_values_ban_loop gauge_values_publish : gauges.

Create Rewrite HintDb fee_states.
#[local] Hint Rewrite @fee_state_bitcoinrpc fee_state_get_block
  fee_state_set_gauge_values : fee_states.

Ltac walk_plain db c :=
  rewrite bind_fst, bitcoinrpc_answer;
  destruct (answer c); [|settle db; reflexivity].

(** The gauges after one cycle, whatever its end, are the gauges before it
    with the writes of [cycle_writes] made in order. *)
Lemma refresh_metrics_gauge_values fees node st :
  fee_gauges_wf st ->
  gauge_values (refresh_metrics fees node st).2
  = apply_writes (cycle_writes fees node) (gauge_values st).
Proof.
  intros Hwf. unfold refresh_metrics, cycle_writes.
  fold (fee_loop node fees).
  walk_plain gauges (uptime node).
  walk_plain gauges (getmemoryinfo node "stats").
  walk_plain gauges (getblockchaininfo node).
  walk_plain gauges (getnetworkinfo node).
  walk_plain gauges (getchaintips node).
  walk_plain gauges (getmempoolinfo node).
  walk_plain gauges (getnettotals node).
  rewrite bind_fst, get_block_result.
  walk_plain gauges (getnetworkhashps node 120).
  walk_plain gauges (getnetworkhashps node (-1)).
  walk_plain gauges (getnetworkhashps node 1).
  walk_plain gauges (listbanned node).
  do 10 step_set.
  match goal with |- context [bind (fee_loop node fees) _ ?s] =>
    assert (gauge_values s = apply_writes (fetched_writes a a1 a2 a6 a7 a8) (gauge_values st))
      as Hfetched by (settle gauges; reflexivity);
    assert (fee_gauges_wf s) as Hwf10
      by (eapply fee_gauges_wf_fee_state; [|exact Hwf];
          autorewrite with fee_states; reflexivity);
    set (st10 := s) in *; clearbody st10
  end.
  destruct (fee_loop_gauges node fees st10 Hwf10) as [_ Hfees].
  rewrite bind_fst. unfold fee_loop at 1. rewrite smartfee_loop_fst.
  fold (fee_loop node fees). fold (fee_failure node fees).
  destruct (fee_failure node fees).
  { cbn [snd]. rewrite Hfees, Hfetched, app_nil_r, apply_writes_app. reflexivity. }
  rewrite bind_fst.
  match goal with |- context [for_each ?l ?b ?s] =>
    change (for_each l b s) with (ban_loop l s) end.
  unfold ban_loop at 1. rewrite ban_loop_fst.
  rewrite bind_fst.
  destruct (warnings a2) as [w|].
  2:{ cbn [subscript raise bind fst snd]. settle gauges.
      rewrite Hfees, Hfetched, app_nil_r, apply_writes_app. reflexivity. }
  cbn [subscript bind ret fst snd].
  fold (looked_up node a1).
  destruct (truthy w); cbn [Counter_inc ret fst snd];
    do 12 step_set; settle gauges; rewrite Hfees, Hfetched;
    rewrite !apply_writes_app; reflexivity.
Qed.

(** ** Names *)







Lemma NoDup_static_gauges : NoDup static_gauges.
Proof. apply (bool_decide_unpack _). vm_compute. exact I. Qed.

Lemma static_gauges_split :
  NoDup fetched_gauges /\ NoDup later_gauges /\ NoDup block_gauges /\
  (forall k, k ∈ fetched_gauges -> (k ∉ later_gauges) /\ (k ∉ block_gauges)) /\
  (forall k, k ∈ later_gauges -> k ∉ block_gauges).
Proof.
  pose proof NoDup_static_gauges as H. unfold static_gauges in H.
  apply NoDup_app in H as (Hf & Hdisj & H).
  apply NoDup_app in H as (Hl & Hdisj' & Hb).
  split; [exact Hf|]. split; [exact Hl|]. split; [exact Hb|]. split.
  - intros k Hk. split; intros Hin; apply (Hdisj k Hk); apply elem_of_app;
      [now left|now right].
  - intros k Hk. now apply Hdisj'.
Qed.

(** ** A cycle in which every call answers *)












(** X2.  In a cycle that runs to completion, the latest block having been
    retrieved, the gauges of its size, its number of transactions, its
    height and its weight hold what the block says. *)
Theorem latest_block_described fees node st blockchaininfo b :
  answer (getblockchaininfo node) = Ok blockchaininfo ->
  answer (getblock node (bestblockhash blockchaininfo) 2) = Ok b ->
  (refresh_metrics fees node st).1 = Ok tt ->
  let st' := (refresh_metrics fees node st).2 in
  gauge_values st' !! BITCOIN_LATEST_BLOCK_SIZE = Some (block_size b) /\
  gauge_values st' !! BITCOIN_LATEST_BLOCK_TXS = Some (nTx b) /\
  gauge_values st' !! BITCOIN_LATEST_BLOCK_HEIGHT = Some (height b) /\
  gauge_values st' !! BITCOIN_LATEST_BLOCK_WEIGHT = Some (weight b).
Proof.
  intros Hbci Hb Hdone st'. subst st'.
  rewrite refresh_metrics_fst in Hdone.
  destruct (refresh_metrics_ends_publishing fees node st blockchaininfo Hdone Hbci)
    as [st1 ->].
  rewrite Hb, gauge_values_publish.
  destruct static_gauges_split as (_ & _ & Hnodup & _).
  repeat split; apply lookup_apply_writes_own;
    try exact Hnodup; cbn; rewrite !elem_of_cons; auto 8.
Qed.

Lemma latest_block_described_witness :
  let st' := (refresh_metrics default_fees example_node initial_registry).2 in
  gauge_values st' !! BITCOIN_LATEST_BLOCK_SIZE = Some 1000%Q /\
  gauge_values st' !! BITCOIN_LATEST_BLOCK_TXS = Some 3%Q /\
  gauge_values st' !! BITCOIN_LATEST_BLOCK_HEIGHT = Some 700000%Q /\
  gauge_values st' !! BITCOIN_LATEST_BLOCK_WEIGHT = Some 3000%Q.
Proof.
  exact (latest_block_described default_fees example_node initial_registry
           {| blocks := 700000%Q; difficulty := 1%Q; size_on_disk := 5000%Q;
              bestblockhash := "000000000019d6" |}
           example_block eq_refl eq_refl eq_refl).
Defined.

(** ** The fee gauges after a cycle *)





(** ** A cycle that fails before it sets anything *)

Lemma published_bitcoinrpc {A} (call : rpc_outcome A) st :
  published (bitcoinrpc call st).2 = published st.
Proof. apply (keeps_bitcoinrpc published). intros ? ?. reflexivity. Qed.

Lemma published_get_block node block_hash st :
  published (get_block node block_hash st).2 = published st.
Proof. apply (keeps_get_block published); intros ? ?; reflexivity. Qed.

Create Rewrite HintDb publishing.
#[local] Hint Rewrite @published_bitcoinrpc published_get_block : publishing.

Ltac walk_fetch c :=
  rewrite bind_fst, bitcoinrpc_answer; unfold failure at 1;
  destruct (answer c);
  [ cbn [or_else]
  | cbn [or_else fst snd]; intros Hfail; inversion Hfail; subst;
    autorewrite with publishing; split; reflexivity ].

(** X4.  When one of the eleven remote calls made before the first gauge is
    set fails (the lookup of the latest block is not one of them), the cycle
    raises that failure and has written no instrument: every gauge, every
    ban gauge, every counter and the fee gauges are as they were. *)
Theorem failed_fetch_writes_nothing fees node st e :
  fetch_failure node = Some e ->
  (refresh_metrics fees node st).1 = Raise e /\
  published (refresh_metrics fees node st).2 = published st.
Proof.
  unfold refresh_metrics, fetch_failure.
  walk_fetch (uptime node).
  walk_fetch (getmemoryinfo node "stats").
  walk_fetch (getblockchaininfo node).
  walk_fetch (getnetworkinfo node).
  walk_fetch (getchaintips node).
  walk_fetch (getmempoolinfo node).
  walk_fetch (getnettotals node).
  rewrite bind_fst.
  match goal with |- context [get_block ?n ?h ?s] =>
    destruct (get_block_fst n h s) as [latest_block ->] end.
  walk_fetch (getnetworkhashps node 120).
  walk_fetch (getnetworkhashps node (-1)).
  walk_fetch (getnetworkhashps node 1).
  rewrite bind_fst, bitcoinrpc_answer. unfold failure.
  destruct (answer (listbanned node)); [discriminate|].
  cbn [fst snd]. intros Hfail. inversion Hfail; subst.
  autorewrite with publishing. split; reflexivity.
Qed.

Lemma failed_fetch_writes_nothing_witness :
  let node := with_listbanned example_node (raises retry_timeout) in
  (refresh_metrics default_fees node initial_registry).1 = Raise retry_timeout /\
  published (refresh_metrics default_fees node initial_registry).2
  = published initial_registry.
Proof.
  exact (failed_fetch_writes_nothing default_fees
           (with_listbanned example_node (raises retry_timeout))
           initial_registry retry_timeout eq_refl).
Defined.

(** ** Polling twice *)

Lemma foldl_write_ban_union (banned : list Ban)
    (written families : gmap (string * (string * string)) Q) :
  foldl write_ban (written ∪ families) banned = foldl write_ban written banned ∪ families.
Proof.
  revert written. induction banned as [|b banned IH]; intros written; [reflexivity|].
  simpl. unfold write_ban at 2 4. rewrite !insert_union_l. apply IH.
Qed.

Lemma foldl_write_ban_twice (banned : list Ban) (families : gmap (string * (string * string)) Q) :
  foldl write_ban (foldl write_ban families banned) banned
  = foldl write_ban families banned.
Proof.
  assert (forall fam, foldl write_ban fam banned = foldl write_ban ∅ banned ∪ fam) as H.
  { intros fam. rewrite <- foldl_write_ban_union. now rewrite (left_id ∅ (∪)). }
  rewrite (H families), (H (_ ∪ _)).
  rewrite (assoc (∪)). now rewrite (idemp (∪)).
Qed.

(** X5.  Polling the same node twice in a row leaves every gauge and every
    ban gauge as polling it once did, whether the cycles complete or fail
    partway: gauges are overwritten, never accumulated. *)
Theorem second_cycle_changes_no_gauge fees history node :
  let st := (main fees history initial_registry).2 in
  let st1 := (refresh_metrics fees node st).2 in
  let st2 := (refresh_metrics fees node st1).2 in
  gauge_values st2 = gauge_values st1 /\ family_values st2 = family_values st1.
Proof.
  intros st st1 st2.
  assert (fee_gauges_wf st) as Hwf by apply main_wf, fee_gauges_wf_initial.
  assert (fee_gauges_wf st1) as Hwf1 by now apply keeps_wf_refresh_metrics.
  subst st2. split.
  - rewrite refresh_metrics_gauge_values by exact Hwf1.
    subst st1. rewrite refresh_metrics_gauge_values by exact Hwf.
    apply apply_writes_twice.
  - rewrite refresh_metrics_family_values. subst st1.
    unfold families_after at 1. rewrite refresh_metrics_family_values.
    unfold families_after.
    destruct (first_failure fees node); [reflexivity|].
    destruct (answer (listbanned node)); [|reflexivity].
    apply foldl_write_ban_twice.
Qed.

(** ** A node that leaves out the [warnings] field *)



(** ** Counting the retries *)

Lemma of_nat_S k : (of_nat (S k) == of_nat k + 1)%Q.
Proof.
  unfold of_nat. rewrite Nat2Z.inj_succ. unfold Z.succ.
  now rewrite inject_Z_plus.
Qed.

Lemma error_count_inc_other type type' st :
  type <> type' ->
  error_count (EXPORTER_ERRORS_inc type st).2 type' = error_count st type'.
Proof.
  intros Hne. unfold error_count at 1. simpl. now rewrite lookup_insert_ne.
Qed.

Lemma note_retries_cons err errs st :
  note_retries (err :: errs) st
  = note_retries errs (EXPORTER_ERRORS_inc (class_of err) st).2.
Proof. unfold note_retries. simpl for_each. now rewrite bind_fst. Qed.

Lemma error_count_note_retries errs st type :
  (error_count (note_retries errs st) type
   == error_count st type + of_nat (retries_of type errs))%Q.
Proof.
  revert st. induction errs as [|err errs IH]; intros st.
  - unfold note_retries, retries_of, of_nat. simpl. ring.
  - rewrite note_retries_cons, IH. unfold retries_of. rewrite filter_cons.
    destruct (decide (class_of err = type)) as [<-|Hne].
    + rewrite error_count_inc. simpl length. rewrite of_nat_S. ring.
    + now rewrite error_count_inc_other by exact Hne.
Qed.

(** X7.  A call of [bitcoinrpc] ends as the node answered, after counting
    every retry once under the class of the failure that caused it: for
    each class, the error counter goes up by the number of retried failures
    of that class.  The call writes no other instrument and prints
    nothing. *)
Theorem retries_are_counted {A} (call : rpc_outcome A) st type :
  (bitcoinrpc call st).1 = answer call /\
  (error_count (bitcoinrpc call st).2 type
   == error_count st type + of_nat (retries_of type (retried call)))%Q /\
  published (bitcoinrpc call st).2 = published st /\
  stdout (bitcoinrpc call st).2 = stdout st.
Proof.
  split; [apply bitcoinrpc_answer|]. split; [|split].
  - rewrite bitcoinrpc_eq. apply error_count_note_retries.
  - apply published_bitcoinrpc.
  - rewrite bitcoinrpc_eq. apply stdout_note_retries.
Qed.

(** ** Counters only grow *)

#[local] Instance counters_grow_preorder : PreOrder counters_grow.
Proof.
  split.
  - intros st. split; intros; apply Qle_refl.
  - intros a b c [Hc1 He1] [Hc2 He2]. split; intros x.
    + eapply Qle_trans; [apply Hc1|apply Hc2].
    + eapply Qle_trans; [apply He1|apply He2].
Qed.

Lemma counters_grow_of_same st st' : same counts st st' -> counters_grow st st'.
Proof.
  unfold same, counts. intros H. injection H as Hc He.
  unfold counters_grow, counter_value, error_count. rewrite Hc, He.
  split; intros; apply Qle_refl.
Qed.

Lemma Qle_plus_nonneg (x amount : Q) : (0 <= amount)%Q -> (x <= x + amount)%Q.
Proof.
  intros H. rewrite <- (Qplus_0_r x) at 1. apply Qplus_le_compat; [apply Qle_refl|exact H].
Qed.

Lemma keeps_grow_Counter_inc name amount :
  (0 <= amount)%Q -> keeps counters_grow (Counter_inc name amount).
Proof.
  intros Hpos st. split; [|intros; apply Qle_refl].
  intros name'. destruct (decide (name = name')) as [<-|Hne].
  - rewrite counter_value_inc. now apply Qle_plus_nonneg.
  - unfold counter_value at 2. simpl. rewrite lookup_insert_ne by exact Hne.
    apply Qle_refl.
Qed.

Lemma keeps_grow_EXPORTER_ERRORS_inc type :
  keeps counters_grow (EXPORTER_ERRORS_inc type).
Proof.
  intros st. split; [intros; apply Qle_refl|].
  intros type'. destruct (decide (type = type')) as [<-|Hne].
  - rewrite error_count_inc. now apply Qle_plus_nonneg.
  - rewrite error_count_inc_other by exact Hne. apply Qle_refl.
Qed.

Ltac frame_same_counts :=
  solve [apply (keeps_mono (same counts) counters_grow _ counters_grow_of_same); frame].

Lemma keeps_grow_bitcoinrpc {A} (call : rpc_outcome A) :
  keeps counters_grow (bitcoinrpc call).
Proof.
  unfold bitcoinrpc.
  apply keeps_bind; [apply _| |intros ? _; frame_same_counts].
  apply keeps_for_each; [apply _|]. intros err _.
  apply keeps_grow_EXPORTER_ERRORS_inc.
Qed.

Lemma keeps_grow_get_block node block_hash :
  keeps counters_grow (get_block node block_hash).
Proof.
  intros st. unfold get_block.
  pose proof (keeps_grow_bitcoinrpc (getblock node block_hash 2) st) as H.
  destruct (bitcoinrpc (getblock node block_hash 2) st) as [[b|e] st1]; exact H.
Qed.

Ltac frame_grow :=
  repeat first
    [ apply keeps_grow_bitcoinrpc
    | apply keeps_grow_get_block
    | apply keeps_grow_EXPORTER_ERRORS_inc
    | apply keeps_grow_Counter_inc; discriminate
    | frame_same_counts
    | frame_step ].

Lemma keeps_grow_refresh_metrics fees node :
  keeps counters_grow (refresh_metrics fees node).
Proof. unfold refresh_metrics. frame_grow. Qed.

Lemma total_seconds_nonneg duration : (0 <= total_seconds duration)%Q.
Proof. unfold total_seconds, Qle. simpl. lia. Qed.

Lemma main_cycle_grows fees node duration st :
  counters_grow st (main_cycle fees node duration st).2.
Proof.
  pose proof (keeps_grow_refresh_metrics fees node st) as H.
  unfold main_cycle.
  destruct (refresh_metrics fees node st) as [[[]|e] st1]; cbn [fst snd] in *.
  - etransitivity; [exact H|].
    apply (keeps_grow_Counter_inc _ _ (total_seconds_nonneg duration)).
  - destruct (isinstance e RetryError).
    + etransitivity; [exact H|]. cbn [fst snd].
      assert (keeps counters_grow
                (print ("Refresh failed during retry. Cause: " ++ exn_str e) >>
                 exception_count e)) as Hhandler by frame_grow.
      etransitivity; [apply (Hhandler st1)|].
      apply (keeps_grow_Counter_inc _ _ (total_seconds_nonneg duration)).
    + destruct (isinstance e JSONDecodeError); exact H.
Qed.

(** X8.  No counter ever goes down while the process runs: across any
    number of cycles, the warnings counter, the process-time counter and
    the error counter of every class are at least what they were. *)
Theorem counters_never_decrease fees cycles st :
  (forall name,
     (counter_value st name <= counter_value (main fees cycles st).2 name)%Q) /\
  (forall type,
     (error_count st type <= error_count (main fees cycles st).2 type)%Q).
Proof.
  change (counters_grow st (main fees cycles st).2).
  revert st. induction cycles as [|[node duration] cycles IH]; intros st.
  - reflexivity.
  - simpl. pose proof (main_cycle_grows fees node duration st) as H.
    destruct (main_cycle fees node duration st) as [[stop|] st1]; cbn [snd] in *.
    + exact H.
    + etransitivity; [exact H|apply IH].
Qed.

(** ** The loop of [main] *)








(** ** The lookup and the bans *)

(** X12.  [get_block] writes no instrument, whether the lookup succeeds or
    fails: gauges, ban gauges, counters and fee gauges are as they were,
    and the error counts are those the retries of the call left.  When the
    lookup succeeds it returns the block and prints nothing. *)
Theorem get_block_writes_no_instrument node block_hash st :
  published (get_block node block_hash st).2 = published st /\
  error_values (get_block node block_hash st).2
  = error_values (note_retries (retried (getblock node block_hash 2)) st) /\
  (forall b, answer (getblock node block_hash 2) = Ok b ->
     (get_block node block_hash st).1 = Ok (Some b) /\
     stdout (get_block node block_hash st).2 = stdout st).
Proof.
  split; [apply published_get_block|]. split.
  - unfold get_block. rewrite bitcoinrpc_eq.
    destruct (answer (getblock node block_hash 2)); reflexivity.
  - intros b Hb. split; [now rewrite get_block_result, Hb|].
    unfold get_block. rewrite bitcoinrpc_eq, Hb. cbn [snd].
    apply stdout_note_retries.
Qed.



(** ** What a cycle prints *)

Lemma stdout_bitcoinrpc {A} (call : rpc_outcome A) st :
  stdout (bitcoinrpc call st).2 = stdout st.
Proof. apply (keeps_bitcoinrpc stdout). intros ? ?. reflexivity. Qed.

Lemma stdout_get_block node block_hash st :
  stdout (get_block node block_hash st).2 =
  stdout st ++
  match answer (getblock node block_hash 2) with
  | Ok _ => []
  | Raise e =>
      [exn_str e; "Error: Can't retrieve block " ++ block_hash ++ " from bitcoind."]%string
  end.
Proof.
  unfold get_block. rewrite bitcoinrpc_eq.
  destruct (answer (getblock node block_hash 2));
    cbn [fst snd bind print ret stdout set_stdout].
  - now rewrite stdout_note_retries, app_nil_r.
  - now rewrite stdout_note_retries, <- app_assoc.
Qed.

Lemma stdout_fee_loop node fees st : stdout (fee_loop node fees st).2 = stdout st.
Proof.
  assert (keeps (same stdout) (fee_loop node fees)) as H
    by (unfold fee_loop; frame).
  apply H.
Qed.

Lemma stdout_ban_loop banned st : stdout (ban_loop banned st).2 = stdout st.
Proof.
  assert (keeps (same stdout) (ban_loop banned)) as H
    by (unfold ban_loop; frame).
  apply H.
Qed.

Lemma stdout_publish latest_block st :
  stdout (publish_latest_block latest_block st).2 = stdout st.
Proof.
  assert (keeps (same stdout) (publish_latest_block latest_block)) as H by frame.
  apply H.
Qed.

Create Rewrite HintDb stdouts.
#[local] Hint Rewrite @stdout_bitcoinrpc stdout_get_block stdout_fee_loop
  stdout_ban_loop stdout_publish : stdouts.

Ltac walk_out db c :=
  rewrite bind_fst, bitcoinrpc_answer;
  destruct (answer c); [|settle db; rewrite ?app_nil_r; reflexivity].

(** X14.  A cycle prints nothing but the two lines of [get_block], and
    those only when the lookup of the latest block is reached and fails:
    the text of the exception, then the line naming the block. *)
Theorem cycle_prints_only_failed_lookup fees node st :
  stdout (refresh_metrics fees node st).2 = stdout st ++ lookup_lines node.
Proof.
  unfold refresh_metrics, lookup_lines.
  fold (fee_loop node fees).
  walk_out stdouts (uptime node).
  walk_out stdouts (getmemoryinfo node "stats").
  walk_out stdouts (getblockchaininfo node).
  walk_out stdouts (getnetworkinfo node).
  walk_out stdouts (getchaintips node).
  walk_out stdouts (getmempoolinfo node).
  walk_out stdouts (getnettotals node).
  rewrite bind_fst.
  match goal with |- context [get_block ?n ?h ?s] =>
    destruct (get_block_fst n h s) as [latest_block ->] end.
  walk_out stdouts (getnetworkhashps node 120).
  walk_out stdouts (getnetworkhashps node (-1)).
  walk_out stdouts (getnetworkhashps node 1).
  walk_out stdouts (listbanned node).
  do 10 step_set.
  rewrite bind_fst. unfold fee_loop at 1. rewrite smartfee_loop_fst.
  fold (fee_loop node fees).
  match goal with |- context [foldr ?f None fees] => destruct (foldr f None fees) end.
  { settle stdouts. reflexivity. }
  rewrite bind_fst.
  match goal with |- context [for_each ?l ?b ?s] =>
    change (for_each l b s) with (ban_loop l s) end.
  unfold ban_loop at 1. rewrite ban_loop_fst.
  rewrite bind_fst.
  match goal with |- context [warnings ?ni] => destruct (warnings ni) as [w|] end.
  2:{ cbn [subscript raise bind fst snd]. settle stdouts. reflexivity. }
  cbn [subscript bind ret fst snd].
  destruct (truthy w); cbn [Counter_inc ret fst snd];
    do 12 step_set; settle stdouts; reflexivity.
Qed.

(** ** Which gauges a cycle constructs *)

#[local] Instance constructs_only_preorder P : PreOrder (constructs_only P).
Proof.
  split; unfold constructs_only.
  - intros st name H. now left.
  - intros a b c Hab Hbc name H. destruct (Hbc name H) as [Hb|HP]; [|now right].
    now apply Hab.
Qed.

Lemma constructs_only_of_same P st st' :
  same collectors st st' -> constructs_only P st st'.
Proof. unfold same, constructs_only. intros -> name H. now left. Qed.

Lemma keeps_constructs_smartfee_gauge (P : string -> Prop) num_blocks :
  P (fee_gauge_name num_blocks) ->
  keeps (constructs_only P) (smartfee_gauge num_blocks).
Proof.
  intros HP st name. unfold smartfee_gauge.
  destruct (BITCOIN_ESTIMATED_SMART_FEE_GAUGES st !! num_blocks); cbn.
  - intros H. now left.
  - intros H. apply elem_of_app in H as [H|H]; [now left|].
    apply list_elem_of_singleton in H. subst name. now right.
Qed.

Ltac frame_same_collectors :=
  solve [apply (keeps_mono (same collectors) (constructs_only _) _
                  (constructs_only_of_same _)); frame].

Lemma keeps_constructs_do_smartfee fees node num_blocks :
  num_blocks ∈ fees ->
  keeps (constructs_only (priced_target fees node)) (do_smartfee node num_blocks).
Proof.
  intros Hin. unfold do_smartfee.
  apply keeps_bind; [apply _|frame_same_collectors|].
  intros estimate Hres. apply result_of_bitcoinrpc in Hres.
  destruct (feerate estimate) as [smartfee|] eqn:Erate; [|apply keeps_ret; apply _].
  apply keeps_bind; [apply _| |intros ? _; frame_same_collectors].
  apply keeps_constructs_smartfee_gauge.
  now exists num_blocks, estimate, smartfee.
Qed.

Lemma keeps_constructs_fee_loop fees node :
  keeps (constructs_only (priced_target fees node))
    (for_each fees (fun smartfee => do_smartfee node smartfee)).
Proof.
  apply keeps_for_each; [apply _|]. intros n Hn.
  now apply keeps_constructs_do_smartfee.
Qed.

(** X15.  A cycle constructs a gauge only for a confirmation target of
    [SMART_FEES] whose estimate carries a [feerate]: every gauge on record
    after the cycle was on record before it, or is the fee gauge of such a
    target. *)
Theorem gauges_constructed_for_priced_targets fees node st name :
  name ∈ collectors (refresh_metrics fees node st).2 ->
  name ∈ collectors st \/
  exists num_blocks estimate smartfee,
    num_blocks ∈ fees /\
    answer (estimatesmartfee node num_blocks) = Ok estimate /\
    feerate estimate = Some smartfee /\
    name = fee_gauge_name num_blocks.
Proof.
  assert (keeps (constructs_only (priced_target fees node)) (refresh_metrics fees node))
    as H.
  { unfold refresh_metrics.
    repeat first
      [ apply keeps_constructs_fee_loop
      | frame_same_collectors
      | frame_step ]. }
  apply H.
Qed.

Lemma gauges_constructed_for_priced_targets_witness :
  let unpriced := with_estimatesmartfee example_node (fun conf_target =>
    returns {| feerate := if bool_decide (conf_target = 3) then None
                          else Some (1 # 10000)%Q;
               estimate_blocks := conf_target |}) in
  "bitcoin_est_smart_fee_5" ∈ collectors initial_registry \/
  exists num_blocks estimate smartfee,
    num_blocks ∈ default_fees /\
    answer (estimatesmartfee unpriced num_blocks) = Ok estimate /\
    feerate estimate = Some smartfee /\
    "bitcoin_est_smart_fee_5" = fee_gauge_name num_blocks.
Proof.
  intros unpriced.
  refine (gauges_constructed_for_priced_targets default_fees unpriced
            initial_registry "bitcoin_est_smart_fee_5" _).
  apply (bool_decide_unpack _). vm_compute. exact I.
Defined.
